(** * IPython.config.application: the configurable Application base class

    A shallow embedding of [src/IPython/config/application.py].  Python
    objects that the module manipulates are first-order values, the
    instance attributes together with the process-wide objects the
    methods touch (standard output, the logging registry, the heap of
    Config objects) form one state record, and every method is a
    computation in a state monad with two abrupt outcomes: a raised
    exception and [sys.exit]. *)

From stdpp Require Import gmap strings list.
From Stdlib Require Import ZArith Ascii.

Open Scope string_scope.
Open Scope list_scope.
Open Scope Z_scope.

(** ** Python values *)

(** The values that can sit in a flags table or in a Config.  Mappings
    are keyed by strings, as configuration fragments are; the items are
    kept in the mapping's iteration order. *)
#[warnings="-register-all"]
Inductive pyval : Type :=
  | PyNone
  | PyInt (n : Z)
  | PyStr (s : string)
  | PyTuple (items : list pyval)
  | PyList (items : list pyval)
  | PyDict (items : list (string * pyval))
  | PyConfig (items : list (string * pyval)).

(** The items of a [Config] object. *)
Abbreviation Config := (list (string * pyval)).

(** The arguments of the [%] operator in ["Bad flag: %r:%s" % (key, value)];
    the rendering of [%r] and [%s] is Python's own. *)
Record fmt_args : Type := FmtArgs { fmt_template : string; fmt_key : string; fmt_value : pyval }.

Inductive exn : Type :=
  | AssertionError (msg : fmt_args)
  | TypeError
  | KeyError (key : pyval)
  | IndexError
  | ValueError
  | AttributeError (name : string)
  | TraitError
  | OtherError (e : string).

(** How a call ends: a normal return, a raised exception, or
    [sys.exit(status)]. *)
Inductive outcome (A : Type) : Type :=
  | Return (a : A)
  | Raise (e : exn)
  | Exit (status : Z).
Arguments Return {A} a.
Arguments Raise {A} e.
Arguments Exit {A} status.

(** ** Classes and traits *)

(** A trait declaration: the name of the trait's own class
    ([trait.__class__.__name__]), its [help] metadata and its [config]
    metadata. *)
Record Trait : Type := MkTrait {
  trait_class_name : string;
  trait_help : option string;
  trait_config : bool
}.

(** A Configurable class: [__name__] and its traits by name. *)
Record PyClass : Type := MkClass {
  cls_name : string;
  cls_traits : gmap string Trait
}.

(** [cls.class_traits(config=True)]: the traits whose [config] metadata
    is true. *)
Definition class_traits_config (c : PyClass) : gmap string Trait :=
  filter (fun kv => trait_config kv.2 = true) (cls_traits c).

(** ** The logging registry *)

Record Handler : Type := MkHandler { handler_format : string }.

Record Logger : Type := MkLogger {
  level : Z;
  handlers : list Handler
}.

(** ** State *)

(** References to Config objects. *)
Abbreviation loc := positive.

(** The attributes of the Application instance ([self]) followed by the
    process-wide objects its methods reach. *)
Record State : Type := MkState {
  self_class : PyClass;                (* self.__class__ *)
  description : string;
  flag_description : string;
  alias_description : string;
  keyvalue_description : string;
  classes : list PyClass;
  version : string;
  log_level : Z;
  aliases : list (string * string);    (* in iteration order *)
  flags : list (string * pyval);       (* in iteration order *)
  config : loc;                        (* self.config, a reference *)
  log : option string;                 (* self.log, a logger by name *)
  heap : gmap loc Config;              (* the Config objects *)
  loggers : gmap string Logger;        (* logging's logger dictionary *)
  root_level : Z;                      (* logging.root.level *)
  stdout : list string                 (* one entry per print statement *)
}.

Definition with_classes (v : list PyClass) (s : State) : State :=
  MkState (self_class s) (description s) (flag_description s) (alias_description s)
    (keyvalue_description s) v (version s) (log_level s) (aliases s) (flags s)
    (config s) (log s) (heap s) (loggers s) (root_level s) (stdout s).

Definition with_log_level (v : Z) (s : State) : State :=
  MkState (self_class s) (description s) (flag_description s) (alias_description s)
    (keyvalue_description s) (classes s) (version s) v (aliases s) (flags s)
    (config s) (log s) (heap s) (loggers s) (root_level s) (stdout s).

Definition with_config (v : loc) (s : State) : State :=
  MkState (self_class s) (description s) (flag_description s) (alias_description s)
    (keyvalue_description s) (classes s) (version s) (log_level s) (aliases s) (flags s)
    v (log s) (heap s) (loggers s) (root_level s) (stdout s).

Definition with_log (v : option string) (s : State) : State :=
  MkState (self_class s) (description s) (flag_description s) (alias_description s)
    (keyvalue_description s) (classes s) (version s) (log_level s) (aliases s) (flags s)
    (config s) v (heap s) (loggers s) (root_level s) (stdout s).

Definition with_heap (v : gmap loc Config) (s : State) : State :=
  MkState (self_class s) (description s) (flag_description s) (alias_description s)
    (keyvalue_description s) (classes s) (version s) (log_level s) (aliases s) (flags s)
    (config s) (log s) v (loggers s) (root_level s) (stdout s).

Definition with_loggers (v : gmap string Logger) (s : State) : State :=
  MkState (self_class s) (description s) (flag_description s) (alias_description s)
    (keyvalue_description s) (classes s) (version s) (log_level s) (aliases s) (flags s)
    (config s) (log s) (heap s) v (root_level s) (stdout s).

Definition with_stdout (v : list string) (s : State) : State :=
  MkState (self_class s) (description s) (flag_description s) (alias_description s)
    (keyvalue_description s) (classes s) (version s) (log_level s) (aliases s) (flags s)
    (config s) (log s) (heap s) (loggers s) (root_level s) v.

Definition with_flags (v : list (string * pyval)) (s : State) : State :=
  MkState (self_class s) (description s) (flag_description s) (alias_description s)
    (keyvalue_description s) (classes s) (version s) (log_level s) (aliases s) v
    (config s) (log s) (heap s) (loggers s) (root_level s) (stdout s).

Definition with_aliases (v : list (string * string)) (s : State) : State :=
  MkState (self_class s) (description s) (flag_description s) (alias_description s)
    (keyvalue_description s) (classes s) (version s) (log_level s) v (flags s)
    (config s) (log s) (heap s) (loggers s) (root_level s) (stdout s).

(** ** The monad of methods *)

Definition M (A : Type) : Type := State -> outcome A * State.

Definition ret {A} (a : A) : M A := fun s => (Return a, s).

Definition bind {A B} (m : M A) (k : A -> M B) : M B :=
  fun s =>
    match m s with
    | (Return a, s') => k a s'
    | (Raise e, s') => (Raise e, s')
    | (Exit n, s') => (Exit n, s')
    end.

Definition raise {A} (e : exn) : M A := fun s => (Raise e, s).
Definition sys_exit {A} (n : Z) : M A := fun s => (Exit n, s).
Definition get : M State := fun s => (Return s, s).
Definition modify (f : State -> State) : M unit := fun s => (Return tt, f s).

Declare Scope py_scope.
Delimit Scope py_scope with py.
Notation "x <- m ;; k" := (bind m (fun x => k))
  (at level 100, m at next level, right associativity) : py_scope.
Notation "m ;; k" := (bind m (fun _ => k))
  (at level 100, right associativity) : py_scope.
Open Scope py_scope.

(** [for x in xs: body] *)
Fixpoint for_each {A} (xs : list A) (body : A -> M unit) : M unit :=
  match xs with
  | [] => ret tt
  | x :: rest => body x ;; for_each rest body
  end.

(** [print a, b, ...]: one print statement writes its items separated by
    single spaces. *)
Definition print (items : list string) : M unit :=
  modify (fun s => with_stdout (stdout s ++ [String.concat " " items]) s).

(** [assert cond, msg] *)
Definition assert_ (cond : bool) (msg : fmt_args) : M unit :=
  if cond then ret tt else raise (AssertionError msg).

(** Lift a pure result that may raise. *)
Definition lift {A} (r : exn + A) : M A :=
  match r with
  | inl e => raise e
  | inr a => ret a
  end.

(** ** Python built-ins used by the module *)

(** [len(v)] *)
Definition py_len (v : pyval) : exn + Z :=
  match v with
  | PyNone | PyInt _ => inl TypeError
  | PyStr s => inr (Z.of_nat (String.length s))
  | PyTuple l | PyList l => inr (Z.of_nat (length l))
  | PyDict d | PyConfig d => inr (Z.of_nat (length d))
  end.

(** [v[i]] for an integer index [i >= 0].  The mappings have string keys
    only, so an integer key is never found in a dict; [Config.__getitem__]
    takes its key for a name and raises a TypeError on an integer. *)
Definition py_getitem (v : pyval) (i : nat) : exn + pyval :=
  match v with
  | PyNone | PyInt _ => inl TypeError
  | PyStr s =>
      match String.get i s with
      | Some c => inr (PyStr (String c EmptyString))
      | None => inl IndexError
      end
  | PyTuple l | PyList l =>
      match l !! i with
      | Some x => inr x
      | None => inl IndexError
      end
  | PyDict _ => inl (KeyError (PyInt (Z.of_nat i)))
  | PyConfig _ => inl TypeError
  end.

(** [isinstance(v, (dict, Config))] *)
Definition is_mapping (v : pyval) : bool :=
  match v with
  | PyDict _ | PyConfig _ => true
  | _ => false
  end.

(** [isinstance(v, basestring)] *)
Definition is_basestring (v : pyval) : bool :=
  match v with
  | PyStr _ => true
  | _ => false
  end.

(** [a, b = v]: unpacking an iterable into two names.  A string yields its
    characters and a mapping its keys. *)
Definition py_unpack2 (v : pyval) : exn + (pyval * pyval) :=
  match v with
  | PyNone | PyInt _ => inl TypeError
  | PyTuple [a; b] | PyList [a; b] => inr (a, b)
  | PyStr (String a (String b EmptyString)) =>
      inr (PyStr (String a EmptyString), PyStr (String b EmptyString))
  | PyDict [(a, _); (b, _)] | PyConfig [(a, _); (b, _)] => inr (PyStr a, PyStr b)
  | _ => inl ValueError
  end.

(** [s.split('.', 1)] unpacked into two names: the text before the first
    dot and the text after it; without a dot the unpacking has one value
    too few. *)
Fixpoint split_first_dot (s : string) : option (string * string) :=
  match s with
  | EmptyString => None
  | String c rest =>
      if Ascii.eqb c "."%char then Some (EmptyString, rest)
      else match split_first_dot rest with
           | Some (a, b) => Some (String c a, b)
           | None => None
           end
  end.

Definition split_dotted (longname : string) : exn + (string * string) :=
  match split_first_dot longname with
  | Some p => inr p
  | None => inl ValueError
  end.

(** [d[key]] on a dict with string keys. *)
Definition dict_getitem {A} (d : gmap string A) (key : string) : exn + A :=
  match d !! key with
  | Some a => inr a
  | None => inl (KeyError (PyStr key))
  end.

(** ** Config objects *)

(** Association-list helpers for the items of a mapping. *)
Fixpoint assoc (k : string) (d : list (string * pyval)) : option pyval :=
  match d with
  | [] => None
  | (k', v) :: rest => if String.eqb k k' then Some v else assoc k rest
  end.

Fixpoint assoc_set (k : string) (v : pyval) (d : list (string * pyval)) : list (string * pyval) :=
  match d with
  | [] => [(k, v)]
  | (k', v') :: rest =>
      if String.eqb k k' then (k, v) :: rest else (k', v') :: assoc_set k v rest
  end.

(** Modelled from the spec: [Config._merge], defined in
    IPython/config/loader.py, which is not part of this module.  New keys
    are added, existing values are overwritten, and where both sides hold
    a nested section the sections are merged recursively. *)
Fixpoint merge_value (other : pyval) (self : Config) {struct other} : Config :=
  match other with
  | PyConfig items =>
      (fix go (items : list (string * pyval)) (self : Config) {struct items} : Config :=
         match items with
         | [] => self
         | (k, v) :: rest =>
             go rest
               match assoc k self, v with
               | Some (PyConfig sub), PyConfig _ =>
                   assoc_set k (PyConfig (merge_value v sub)) self
               | _, _ => assoc_set k v self
               end
         end) items self
  | _ => self
  end.

Definition merge_config (self other : Config) : Config :=
  merge_value (PyConfig other) self.

(** The values of the [log_level] Enum trait (line 88). *)
Definition log_level_values : list Z := [0; 10; 20; 30; 40; 50].

(** [logging.WARN], the default of [log_level]. *)
Definition WARN : Z := 30.

(** ** The logging calls of [init_logging] *)

(** [logging.getLogger(name)]: the logger registered under [name], created
    with level NOTSET and no handler on first use.  Class names are Python
    identifiers, so the name has no dot and the logger's parent is the
    root logger. *)
Definition getLogger (name : string) : M string :=
  s <- get ;;
  match loggers s !! name with
  | Some _ => ret name
  | None => modify (with_loggers (<[name := MkLogger 0 []]> (loggers s))) ;; ret name
  end.

(** [logger.setLevel(lvl)] *)
Definition setLevel (name : string) (lvl : Z) : M unit :=
  modify (fun s =>
    with_loggers (alter (fun l => MkLogger lvl (handlers l)) name (loggers s)) s).

(** [logger.addHandler(h)] for a handler created by the caller. *)
Definition addHandler (name : string) (h : Handler) : M unit :=
  modify (fun s =>
    with_loggers (alter (fun l => MkLogger (level l) (handlers l ++ [h])) name (loggers s)) s).

(** [logger.level] *)
Definition logger_level (name : string) (s : State) : option Z :=
  level <$> loggers s !! name.

(** [logger.getEffectiveLevel()]: the logger's own level unless it is
    NOTSET (0), in which case the parent, here the root logger, decides. *)
Definition getEffectiveLevel (name : string) (s : State) : option Z :=
  (fun l => if level l =? 0 then root_level s else level l) <$> loggers s !! name.

Section Application.

(** The collaborators the module imports and the process's argument
    vector. *)
Variable indent : string -> string.                 (* IPython.utils.text.indent *)
Variable class_print_help : PyClass -> list string. (* what cls.class_print_help() prints *)
Variable sys_argv : list string.                    (* sys.argv *)
(** [KeyValueConfigLoader(argv, aliases, flags).load_config()] *)
Variable kv_load_config :
  list string -> list (string * string) -> list (string * pyval) -> exn + Config.
(** [PyFileConfigLoader(filename, path).load_config()] *)
Variable pyfile_load_config : string -> option (list string) -> exn + Config.
(** The value a Config holds for this class's [log_level] trait, if it
    holds one: the lookup that [Configurable._config_changed] performs. *)
Variable config_log_level : PyClass -> Config -> option pyval.

(** *** Lines 115-131 *)

Definition init_logging : M unit :=
  s <- get ;;
  lg <- getLogger (cls_name (self_class s)) ;;
  modify (with_log (Some lg)) ;;
  setLevel lg (log_level s) ;;
  addHandler lg (MkHandler "[%(name)s] %(message)s").

Definition _log_level_changed (name : string) (old new : Z) : M unit :=
  s <- get ;;
  match log s with
  | Some lg => setLevel lg new
  | None => raise (AttributeError "log")
  end.

(** Modelled from the spec: the assignment [self.log_level = v], carried
    out by the trait machinery of IPython/utils/traitlets.py, which is
    not part of this module.  The value must be one of the Enum's
    values; it is stored and the change-notification callback
    [_log_level_changed] runs. *)
Definition assign_log_level (v : pyval) : M unit :=
  match v with
  | PyInt n =>
      if bool_decide (n ∈ log_level_values) then
        s <- get ;;
        modify (with_log_level n) ;;
        _log_level_changed "log_level" (log_level s) n
      else raise TraitError
  | _ => raise TraitError
  end.

(** *** Lines 102-113 *)

Definition bad_flag (key : string) (value : pyval) : fmt_args :=
  FmtArgs "Bad flag: %r:%s" key value.

Definition check_flag (kv : string * pyval) : M unit :=
  let '(key, value) := kv in
  n <- lift (py_len value) ;;
  assert_ (n =? 2) (bad_flag key value) ;;
  v0 <- lift (py_getitem value 0) ;;
  assert_ (is_mapping v0) (bad_flag key value) ;;
  v1 <- lift (py_getitem value 1) ;;
  assert_ (is_basestring v1) (bad_flag key value).

(** [__init__], run on the instance as [SingletonConfigurable.__init__]
    leaves it. *)
Definition __init__ : M unit :=
  s <- get ;;
  modify (with_classes (self_class s :: classes s)) ;;
  s <- get ;;
  for_each (flags s) check_flag ;;
  init_logging.

(** *** Lines 133-194 *)

(** What the four prints that open each table's help write. *)
Definition alias_header (s : State) : list string :=
  ["Aliases"; "-------"; alias_description s; ""].

Definition flag_header (s : State) : list string :=
  ["Flags"; "-----"; flag_description s; ""].

(** The [classdict] of lines 143-145. *)
Definition classdict (cs : list PyClass) : gmap string PyClass :=
  foldl (fun d c => <[cls_name c := c]> d) ∅ cs.

Definition print_alias (cd : gmap string PyClass) (entry : string * string) : M unit :=
  let '(alias, longname) := entry in
  names <- lift (split_dotted longname) ;;
  let '(classname, traitname) := names in
  cls <- lift (dict_getitem cd classname) ;;
  trait <- lift (dict_getitem (class_traits_config cls) traitname) ;;
  print [alias; "(" +:+ longname +:+ ")"; ":"; trait_class_name trait] ;;
  match trait_help trait with
  | Some h => if String.eqb h "" then ret tt else print [indent h]
  | None => ret tt
  end.

Definition print_alias_help : M unit :=
  s <- get ;;
  match aliases s with
  | [] => ret tt
  | _ =>
      print ["Aliases"] ;;
      print ["-------"] ;;
      print [alias_description s] ;;
      print [] ;;
      for_each (aliases s) (print_alias (classdict (classes s))) ;;
      print []
  end.

(** One round of the loop of lines 168-170.  [indent] works on strings; it
    hands [None] back as it is, and [print None] writes the text [None]. *)
Definition print_flag (entry : string * pyval) : M unit :=
  let '(m, value) := entry in
  pair <- lift (py_unpack2 value) ;;
  let '(cfg, help) := pair in
  print ["--" +:+ m] ;;
  match help with
  | PyStr h => print [indent h]
  | PyNone => print ["None"]
  | _ => raise TypeError
  end.

Definition print_flag_help : M unit :=
  s <- get ;;
  match flags s with
  | [] => ret tt
  | _ =>
      print ["Flags"] ;;
      print ["-----"] ;;
      print [flag_description s] ;;
      print [] ;;
      for_each (flags s) print_flag ;;
      print []
  end.

Definition print_help : M unit :=
  print_flag_help ;;
  print_alias_help ;;
  s <- get ;;
  match classes s with
  | [] => ret tt
  | _ =>
      print ["Class parameters"] ;;
      print ["----------------"] ;;
      print [keyvalue_description s] ;;
      print []
  end ;;
  for_each (classes s) (fun cls =>
    for_each (class_print_help cls) (fun line => print [line]) ;;
    print []).

Definition print_description : M unit :=
  s <- get ;;
  print [description s] ;;
  print [].

Definition print_version : M unit :=
  s <- get ;;
  print [version s].

(** *** Lines 196-204 *)

(** The items of the Config object at [l]; every reference held by the
    program is allocated. *)
Definition deref (s : State) (l : loc) : Config :=
  default [] (heap s !! l).

(** Allocation of a new Config object. *)
Definition alloc (c : Config) : M loc :=
  s <- get ;;
  let l := fresh (dom (heap s)) in
  modify (with_heap (<[l := c]> (heap s))) ;;
  ret l.

(** [deepcopy(cfg)]: a new object with the same items. *)
Definition deepcopy (l : loc) : M loc :=
  s <- get ;;
  alloc (deref s l).

(** [self_._merge(other)]: the merge happens in place, in the object
    [self_]. *)
Definition _merge (self_ other : loc) : M unit :=
  modify (fun s =>
    with_heap (<[self_ := merge_config (deref s self_) (deref s other)]> (heap s)) s).

(** Modelled from the spec: [Configurable._config_changed], defined in
    IPython/config/configurable.py, which is not part of this module.
    The configurable attributes receive the values the new config holds
    for them; for an Application that is [log_level]. *)
Definition _config_changed (name : string) (old new : loc) : M unit :=
  s <- get ;;
  match config_log_level (self_class s) (deref s new) with
  | Some v => assign_log_level v
  | None => ret tt
  end.

(** Modelled from the spec: the assignment [self.config = cfg], carried out
    by the trait machinery of IPython/utils/traitlets.py, which is not part
    of this module.  The reference is stored and the change notification
    runs. *)
Definition assign_config (cfg : loc) : M unit :=
  s <- get ;;
  modify (with_config cfg) ;;
  _config_changed "config" (config s) cfg.

Definition update_config (cfg : loc) : M unit :=
  s <- get ;;
  newconfig <- deepcopy (config s) ;;
  _merge newconfig cfg ;;
  assign_config cfg.

(** *** Lines 206-229 *)

Definition parse_command_line (argv : option (list string)) : M unit :=
  let argv := match argv with None => tail sys_argv | Some a => a end in
  (if bool_decide ("-h" ∈ argv) || bool_decide ("--help" ∈ argv) then
     print_description ;;
     print_help ;;
     sys_exit 1
   else ret tt) ;;
  (if bool_decide ("--version" ∈ argv) then
     print_version ;;
     sys_exit 1
   else ret tt) ;;
  s <- get ;;
  loaded <- lift (kv_load_config argv (aliases s) (flags s)) ;;
  cfg <- alloc loaded ;;
  update_config cfg.

Definition load_config_file (filename : string) (path : option (list string)) : M unit :=
  loaded <- lift (pyfile_load_config filename path) ;;
  cfg <- alloc loaded ;;
  update_config cfg.

End Application.

(** ** Predicates of the statements *)

(** A flag value that passes the validation of lines 109-112: a tuple or
    list of two items, a mapping and a string. *)
Definition flag_ok (v : pyval) : bool :=
  match v with
  | PyTuple [a; b] | PyList [a; b] => is_mapping a && is_basestring b
  | _ => false
  end.

(** The values with a length and integer indexing: strings, tuples and
    lists. *)
Definition is_sequence (v : pyval) : bool :=
  match v with
  | PyStr _ | PyTuple _ | PyList _ => true
  | _ => false
  end.

(** A computation leaves the observation [f] of the state as it was,
    however it ends. *)
Definition preserves {A B} (f : State -> B) (m : M A) : Prop :=
  forall s, f (m s).2 = f s.

(** The instance has its logger: [self.log] is set and names a logger of
    the registry.  [init_logging] establishes this. *)
Definition wired (s : State) : Prop :=
  exists lg, log s = Some lg /\ is_Some (loggers s !! lg).

(** [self.log.level] and [self.log.getEffectiveLevel()] *)
Definition own_level (s : State) : option Z :=
  log s ≫= fun lg => logger_level lg s.

Definition own_effective_level (s : State) : option Z :=
  log s ≫= fun lg => getEffectiveLevel lg s.

(** [self.log_level = v] for each [v] of a list, in turn. *)
Definition assign_levels (vs : list Z) : M unit :=
  for_each vs (fun v => assign_log_level (PyInt v)).

(** ** What the help methods print *)

(** A computation returns after printing exactly [lines] and changing
    nothing else. *)
Definition emits (m : M unit) (s : State) (lines : list string) : Prop :=
  m s = (Return tt, with_stdout (stdout s ++ lines) s).

(** The two prints of lines 169-170 for a valid entry. *)
Definition flag_lines (indent : string -> string) (entry : string * pyval) : list string :=
  match entry.2 with
  | PyTuple [_; PyStr h] | PyList [_; PyStr h] => ["--" +:+ entry.1; indent h]
  | _ => []
  end.

(** The lookups of lines 148-151. *)
Definition resolve_alias (cs : list PyClass) (longname : string) : exn + Trait :=
  match split_dotted longname with
  | inl e => inl e
  | inr (classname, traitname) =>
      match dict_getitem (classdict cs) classname with
      | inl e => inl e
      | inr cls => dict_getitem (class_traits_config cls) traitname
      end
  end.

Definition alias_ok (cs : list PyClass) (entry : string * string) : bool :=
  match resolve_alias cs entry.2 with
  | inr _ => true
  | inl _ => false
  end.

(** The prints of lines 153-155 for an alias that resolves to [t]. *)
Definition alias_lines (indent : string -> string) (entry : string * string) (t : Trait)
    : list string :=
  String.concat " " [entry.1; "(" +:+ entry.2 +:+ ")"; ":"; trait_class_name t] ::
  match trait_help t with
  | Some h => if String.eqb h "" then [] else [indent h]
  | None => []
  end.

Definition alias_entry_lines (indent : string -> string) (cs : list PyClass)
    (entry : string * string) : list string :=
  match resolve_alias cs entry.2 with
  | inr t => alias_lines indent entry t
  | inl _ => []
  end.

Definition flag_help_output (indent : string -> string) (s : State) : list string :=
  match flags s with
  | [] => []
  | fl => flag_header s ++ flat_map (flag_lines indent) fl ++ [""]
  end.

Definition alias_help_output (indent : string -> string) (s : State) : list string :=
  match aliases s with
  | [] => []
  | al => alias_header s ++ flat_map (alias_entry_lines indent (classes s)) al ++ [""]
  end.

Definition class_help_output (class_print_help : PyClass -> list string) (s : State)
    : list string :=
  match classes s with
  | [] => []
  | _ => ["Class parameters"; "----------------"; keyvalue_description s; ""]
  end ++ flat_map (fun cls => class_print_help cls ++ [""]) (classes s).

Definition help_output (indent : string -> string)
    (class_print_help : PyClass -> list string) (s : State) : list string :=
  flag_help_output indent s ++ alias_help_output indent s ++
  class_help_output class_print_help s.

(** The tables are as the data model asks: every flag value is a pair of a
    mapping and a string, every alias resolves to a configurable trait of
    a registered class. *)
Definition tables_ok (s : State) : Prop :=
  Forall (fun kv => flag_ok kv.2 = true) (flags s) /\
  Forall (fun kv => alias_ok (classes s) kv = true) (aliases s).

(** An alias target of the form [Class.trait] that does not resolve: no
    registered class has that name, or the class found under that name has
    no configurable trait of that name. *)
Definition unresolved (cs : list PyClass) (longname : string) : Prop :=
  exists classname traitname,
    split_first_dot longname = Some (classname, traitname) /\
    ((forall c, c ∈ cs -> cls_name c <> classname) \/
     (exists cls, classdict cs !! classname = Some cls /\
        forall t, cls_traits cls !! traitname = Some t -> trait_config t = false)).

(** The command line asks for help. *)
Definition wants_help (argv : list string) : Prop :=
  "-h" ∈ argv \/ "--help" ∈ argv.

(** The two early exits of [parse_command_line]: lines 211-213 and lines
    216-217. *)
Definition help_path (indent : string -> string)
    (class_print_help : PyClass -> list string) : M unit :=
  print_description ;;
  print_help indent class_print_help ;;
  sys_exit 1.

Definition version_path : M unit :=
  print_version ;;
  sys_exit 1.

(** The instance accepts the Config [c]: the config holds no value for
    [log_level], or it holds one of the Enum's values and the instance has
    its logger. *)
Definition config_applies (config_log_level : PyClass -> Config -> option pyval)
    (s : State) (c : Config) : Prop :=
  match config_log_level (self_class s) c with
  | None => True
  | Some (PyInt n) => n ∈ log_level_values /\ wired s
  | Some _ => False
  end.

(** [needle in hay] for strings. *)
Fixpoint contains (needle hay : string) : bool :=
  String.prefix needle hay ||
  match hay with
  | EmptyString => false
  | String _ rest => contains needle rest
  end.

(** A computation raises [e] after printing exactly [lines] and changing
    nothing else. *)
Definition fails (m : M unit) (s : State) (lines : list string) (e : exn) : Prop :=
  m s = (Raise e, with_stdout (stdout s ++ lines) s).

(** A computation only ever adds lines at the end of standard output. *)
Definition appends {A} (m : M A) : Prop :=
  forall s, exists lines, stdout (m s).2 = stdout s ++ lines.

(** The handler that lines 124-126 create. *)
Definition stream_handler : Handler := MkHandler "[%(name)s] %(message)s".

(** The handlers of the logger registered under [name]; none when there is
    no such logger. *)
Definition handlers_of (name : string) (s : State) : list Handler :=
  default [] (handlers <$> loggers s !! name).



(** A computation never ends in [sys.exit]. *)
Definition no_exit {A} (m : M A) : Prop :=
  forall s n, (m s).1 <> Exit n.

(** ** Sample data *)

Module Sample.

Definition log_level_trait : Trait :=
  MkTrait "Enum" (Some "Set the log level (0,10,20,30,40,50).") true.

(** The class [Application] itself. *)
Definition Application : PyClass :=
  MkClass "Application" {[ "log_level" := log_level_trait ]}.

(** [class MyApp(Application): pass] *)
Definition MyApp : PyClass :=
  MkClass "MyApp" {[ "log_level" := log_level_trait ]}.

(** A new instance of [cls] with the class defaults of lines 69-99, in a
    process whose root logger has the default level WARNING. *)
Definition fresh_instance (cls : PyClass) : State :=
  {| self_class := cls;
     description := "This is an application.";
     flag_description := "Flags are command-line arguments passed as '--<flag>'.";
     alias_description := "These are commonly set parameters, given abbreviated aliases for convenience.";
     keyvalue_description := "Parameters are set from command-line arguments of the form:";
     classes := [];
     version := "0.0";
     log_level := WARN;
     aliases := [("log_level", "Application.log_level")];
     flags := [];
     config := 1%positive;
     log := None;
     heap := {[ 1%positive := [] ]};
     loggers := ∅;
     root_level := 30;
     stdout := [] |}.

(** The flags table of the spec's example. *)
Definition debug_flags : list (string * pyval) :=
  [("debug", PyTuple [PyDict [("Application", PyDict [("log_level", PyInt 10)])];
                      PyStr "enable debug"])].

Definition indent (s : string) : string := "    " +:+ s.

Definition class_print_help (c : PyClass) : list string :=
  [cls_name c +:+ " options"].

(** A command-line loader that accepts nothing but the empty command
    line. *)
Definition kv_load_config (argv : list string) (al : list (string * string))
    (fl : list (string * pyval)) : exn + Config :=
  match argv with
  | [] => inr []
  | _ => inl (OtherError "ArgumentError")
  end.

(** The lookup of [Application.log_level] in a Config. *)
Definition config_log_level (cls : PyClass) (c : Config) : option pyval :=
  match assoc (cls_name cls) c with
  | Some (PyConfig sec) => assoc "log_level" sec
  | _ => None
  end.

(** An [Application] constructed with the flags table of the spec's
    example. *)
Definition app : State :=
  (__init__ (with_flags debug_flags (fresh_instance Application))).2.

(** A [MyApp] constructed with the class defaults: it inherits the alias
    table of [Application]. *)
Definition sub_app : State :=
  (__init__ (fresh_instance MyApp)).2.

(** An instance whose config is [{a: 1}], next to a loaded Config
    [{b: 2}] at reference 2. *)
Definition two_configs : State :=
  with_heap {[ 1%positive := [("a", PyInt 1)]; 2%positive := [("b", PyInt 2)] ]}
    (fresh_instance Application).

(** A second [Application] instance, with [log_level] 10, in the process
    in which [app] was constructed. *)
Definition second_app : State :=
  with_loggers (loggers app) (with_log_level 10 (fresh_instance Application)).

(** Two registered classes of the same name: a later entry of the registry
    shadows an earlier one. *)
Definition shadow : PyClass := MkClass "Application" ∅.


(** [app] with two aliases, the first without a dot, the second naming a
    class that is not registered. *)
Definition mixed_aliases : State :=
  with_aliases [("x", "nodot"); ("y", "Nope.z")] app.

(** [app] with three aliases: one that resolves, one naming a class that
    is not registered, one without a dot. *)
Definition late_failure : State :=
  with_aliases [("log_level", "Application.log_level"); ("y", "Nope.z"); ("x", "nodot")] app.

End Sample.

(** ** Laws of the monad *)

Lemma bind_return {A B} (m : M A) (k : A -> M B) s a s' :
  m s = (Return a, s') -> bind m k s = k a s'.
Proof. intros H. unfold bind. now rewrite H. Qed.

Lemma bind_raise {A B} (m : M A) (k : A -> M B) s e s' :
  m s = (Raise e, s') -> bind m k s = (Raise e, s').
Proof. intros H. unfold bind. now rewrite H. Qed.

Lemma bind_exit {A B} (m : M A) (k : A -> M B) s n s' :
  m s = (Exit n, s') -> bind m k s = (Exit n, s').
Proof. intros H. unfold bind. now rewrite H. Qed.

Lemma preserves_bind {A B C} (f : State -> C) (m : M A) (k : A -> M B) :
  preserves f m -> (forall a, preserves f (k a)) -> preserves f (bind m k).
Proof.
  intros Hm Hk s. unfold bind. specialize (Hm s).
  destruct (m s) as [[a|e|n] s']; simpl in *; try assumption.
  now rewrite Hk.
Qed.

Lemma preserves_ret {A C} (f : State -> C) (a : A) : preserves f (ret a).
Proof. now intros s. Qed.

Lemma preserves_raise {A C} (f : State -> C) e : preserves f (@raise A e).
Proof. now intros s. Qed.

Lemma preserves_exit {A C} (f : State -> C) n : preserves f (@sys_exit A n).
Proof. now intros s. Qed.

Lemma preserves_get {C} (f : State -> C) : preserves f get.
Proof. now intros s. Qed.

Lemma preserves_lift {A C} (f : State -> C) (r : exn + A) : preserves f (lift r).
Proof. destruct r; [apply preserves_raise | apply preserves_ret]. Qed.

Lemma preserves_assert {C} (f : State -> C) c msg : preserves f (assert_ c msg).
Proof. destruct c; [apply preserves_ret | apply preserves_raise]. Qed.

Lemma preserves_modify {C} (f : State -> C) (g : State -> State) :
  (forall s, f (g s) = f s) -> preserves f (modify g).
Proof. intros H s. apply H. Qed.

Lemma preserves_for_each {A C} (f : State -> C) (xs : list A) (body : A -> M unit) :
  (forall x, preserves f (body x)) -> preserves f (for_each xs body).
Proof.
  intros Hb. induction xs as [|x xs IH]; simpl.
  - apply preserves_ret.
  - apply preserves_bind; [apply Hb | intros _; apply IH].
Qed.

Lemma preserves_print {C} (f : State -> C) items :
  (forall out s, f (with_stdout out s) = f s) -> preserves f (print items).
Proof. intros H. apply preserves_modify. intros s. apply H. Qed.

Create HintDb frame.
#[export] Hint Resolve preserves_ret preserves_raise preserves_exit preserves_get
  preserves_lift preserves_assert preserves_for_each : frame.

(** Frame reasoning for straight-line code: split at every bind, close
    the leaves with the hints, leave the state updates to the caller. *)
Ltac frame :=
  repeat first
    [ apply preserves_for_each; intros ?
    | apply preserves_bind; [| intros ? ]
    | solve [ auto with frame ]
    | apply preserves_modify; intros; solve [ auto | reflexivity ]
    | match goal with
      | |- preserves _ (match ?x with _ => _ end) => destruct x
      end ].

(** ** Flag validation (lines 109-112) *)

Lemma three_or_more (n : nat) : (Z.of_nat (S (S (S n))) =? 2) = false.
Proof. apply Z.eqb_neq. lia. Qed.

Lemma check_flag_state kv : preserves id (check_flag kv).
Proof. destruct kv as [key value]. unfold check_flag. frame. Qed.

Lemma check_flag_sequence key value s :
  is_sequence value = true ->
  check_flag (key, value) s =
    (if flag_ok value then Return tt else Raise (AssertionError (bad_flag key value)), s).
Proof.
  intros Hseq. destruct value as [| n | str | l | l | d | d]; try discriminate.
  - destruct str as [| a [| b [| c str]]]; try reflexivity.
    unfold check_flag, bind, lift, py_len, ret. cbv beta iota.
    simpl String.length. now rewrite three_or_more.
  - destruct l as [| a [| b [| c l]]]; try reflexivity.
    + destruct a, b; reflexivity.
    + unfold check_flag, bind, lift, py_len, ret. cbv beta iota.
      simpl length. now rewrite three_or_more.
  - destruct l as [| a [| b [| c l]]]; try reflexivity.
    + destruct a, b; reflexivity.
    + unfold check_flag, bind, lift, py_len, ret. cbv beta iota.
      simpl length. now rewrite three_or_more.
Qed.

(** The loop stops at the first entry that fails its assertions. *)
Lemma validation_first_bad pre key value post s :
  Forall (fun kv => flag_ok kv.2 = true) pre ->
  is_sequence value = true ->
  flag_ok value = false ->
  for_each (pre ++ (key, value) :: post) check_flag s =
    (Raise (AssertionError (bad_flag key value)), s).
Proof.
  intros Hpre Hseq Hbad. induction Hpre as [| [k v] pre Hv _ IH]; cbn [for_each app].
  - erewrite bind_raise; [reflexivity |].
    rewrite check_flag_sequence by assumption. now rewrite Hbad.
  - erewrite bind_return; [exact IH |].
    simpl in Hv. rewrite check_flag_sequence.
    + now rewrite Hv.
    + destruct v as [| | | [|?[|?[|??]]] | [|?[|?[|??]]] | |]; simpl in *; congruence.
Qed.

Lemma validation_all_ok fl s :
  Forall (fun kv => flag_ok kv.2 = true) fl ->
  for_each fl check_flag s = (Return tt, s).
Proof.
  intros Hall. induction Hall as [| [k v] fl Hv _ IH]; cbn [for_each]; [reflexivity |].
  erewrite bind_return; [exact IH |].
  simpl in Hv. rewrite check_flag_sequence.
  - now rewrite Hv.
  - destruct v as [| | | [|?[|?[|??]]] | [|?[|?[|??]]] | |]; simpl in *; congruence.
Qed.

(** A table with an entry that is not valid splits at the first one. *)
Lemma first_bad_flag (fl : list (string * pyval)) :
  Exists (fun kv => flag_ok kv.2 = false) fl ->
  exists pre key value post,
    fl = (pre ++ (key, value) :: post)%list /\
    Forall (fun kv => flag_ok kv.2 = true) pre /\
    flag_ok value = false.
Proof.
  induction fl as [| [k v] fl IH]; intros Hex.
  - inversion Hex.
  - destruct (flag_ok v) eqn:Hv.
    + inversion Hex as [? ? Hh | ? ? Ht]; subst; [simpl in Hh; congruence |].
      destruct (IH Ht) as (pre & key & value & post & -> & Hpre & Hbad).
      exists ((k, v) :: pre), key, value, post. repeat split; auto.
    + exists [], k, v, fl. repeat split; auto.
Qed.

(** [init_logging] always returns. *)
Lemma init_logging_returns s : (init_logging s).1 = Return tt.
Proof.
  unfold init_logging, bind, get, getLogger, bind, get.
  destruct (loggers s !! cls_name (self_class s)); reflexivity.
Qed.

Lemma init_unfold s :
  __init__ s =
  bind (for_each (flags s) check_flag) (fun _ => init_logging)
       (with_classes (self_class s :: classes s) s).
Proof. reflexivity. Qed.

Lemma init_logging_frame {C} (f : State -> C) :
  (forall v s, f (with_log v s) = f s) ->
  (forall v s, f (with_loggers v s) = f s) ->
  preserves f init_logging.
Proof.
  intros Hlog Hloggers. unfold init_logging, getLogger, setLevel, addHandler.
  frame.
Qed.

Lemma validation_frame {C} (f : State -> C) fl : preserves f (for_each fl check_flag).
Proof.
  apply preserves_for_each. intros [key value]. unfold check_flag. frame.
Qed.

(** ** Construction *)

(** C5: after [__init__], whether it returned or raised, the instance is
    still an instance of the same class and [classes[0]] is that class: the
    constructor inserted [self.__class__] at position 0. *)
Theorem init_inserts_own_class (s : State) :
  self_class (__init__ s).2 = self_class s /\
  classes (__init__ s).2 = self_class s :: classes s /\
  classes (__init__ s).2 !! 0%nat = Some (self_class (__init__ s).2).
Proof.
  assert (Hc : classes (__init__ s).2 = self_class s :: classes s).
  { rewrite init_unfold.
    rewrite (preserves_bind classes _ _ (validation_frame classes (flags s))).
    - reflexivity.
    - intros _. now apply init_logging_frame. }
  assert (Hs : self_class (__init__ s).2 = self_class s).
  { rewrite init_unfold.
    rewrite (preserves_bind self_class _ _ (validation_frame self_class (flags s))).
    - reflexivity.
    - intros _. now apply init_logging_frame. }
  repeat split; try assumption.
  rewrite Hc, Hs. reflexivity.
Qed.






(** The same validation without the restriction to sequences: an entry
    whose value has no length stops the constructor with a TypeError
    before any assertion is evaluated. *)
Lemma check_flag_no_len key n s :
  check_flag (key, PyInt n) s = (Raise TypeError, s).
Proof. reflexivity. Qed.

(** ** Concrete runs of the constructor *)



(** ** The log level (lines 115-131) *)

Lemma effective_of_level lg s v :
  logger_level lg s = Some v ->
  getEffectiveLevel lg s = Some (if v =? 0 then root_level s else v).
Proof.
  unfold logger_level, getEffectiveLevel.
  destruct (loggers s !! lg) as [l|]; simpl; [| discriminate].
  now intros [= ->].
Qed.

Lemma init_logging_wired s :
  wired (init_logging s).2 /\
  root_level (init_logging s).2 = root_level s /\
  own_level (init_logging s).2 = Some (log_level s).
Proof.
  unfold init_logging, getLogger, bind, get.
  destruct (loggers s !! cls_name (self_class s)) as [l|] eqn:Hl; simpl;
    unfold wired, own_level, logger_level; simpl.
  - repeat split.
    + eexists. split; [reflexivity |].
      rewrite !lookup_alter_eq, Hl. simpl. eauto.
    + now rewrite !lookup_alter_eq, Hl.
  - repeat split.
    + eexists. split; [reflexivity |].
      rewrite !lookup_alter_eq, lookup_insert_eq. simpl. eauto.
    + now rewrite !lookup_alter_eq, lookup_insert_eq.
Qed.

Lemma init_wired s0 :
  (__init__ s0).1 = Return tt ->
  wired (__init__ s0).2 /\ root_level (__init__ s0).2 = root_level s0.
Proof.
  rewrite init_unfold. unfold bind.
  pose proof (validation_frame id (flags s0) (with_classes (self_class s0 :: classes s0) s0)) as Hid.
  destruct (for_each (flags s0) check_flag _) as [[[]|e|n] s1]; simpl in *;
    try discriminate.
  unfold id in Hid. subst s1. intros _.
  destruct (init_logging_wired (with_classes (self_class s0 :: classes s0) s0)) as (Hw & Hr & _).
  split; [exact Hw | exact Hr].
Qed.

(** One assignment to [log_level] on an instance that has its logger. *)
Lemma assign_log_level_wired s v :
  wired s -> v ∈ log_level_values ->
  (assign_log_level (PyInt v) s).1 = Return tt /\
  wired (assign_log_level (PyInt v) s).2 /\
  root_level (assign_log_level (PyInt v) s).2 = root_level s /\
  log_level (assign_log_level (PyInt v) s).2 = v /\
  own_level (assign_log_level (PyInt v) s).2 = Some v.
Proof.
  intros (lg & Hlog & [l Hl]) Hv. unfold assign_log_level.
  rewrite bool_decide_eq_true_2 by assumption.
  unfold bind, get, modify, _log_level_changed, bind, get. simpl.
  rewrite Hlog. simpl. unfold wired, own_level, logger_level. simpl.
  rewrite Hlog. simpl. rewrite lookup_alter_eq, Hl. simpl.
  repeat split. exists lg. split; [reflexivity |].
  rewrite lookup_alter_eq, Hl. simpl. eauto.
Qed.

Lemma assign_levels_wired vs s :
  wired s -> Forall (fun v => v ∈ log_level_values) vs ->
  (assign_levels vs s).1 = Return tt /\
  wired (assign_levels vs s).2 /\
  root_level (assign_levels vs s).2 = root_level s.
Proof.
  intros Hw Hvs. revert s Hw.
  induction Hvs as [| v vs Hv _ IH]; intros s Hw; [now repeat split |].
  unfold assign_levels. cbn [for_each]. unfold bind.
  destruct (assign_log_level_wired s v Hw Hv) as (Hr & Hw' & Hroot & _).
  destruct (assign_log_level (PyInt v) s) as [o s']. simpl in *. subst o.
  destruct (IH s' Hw') as (Hr2 & Hw2 & Hroot2).
  repeat split; try assumption. now rewrite <- Hroot.
Qed.

(** C6, as amended: after a construction that returned, and after any
    earlier assignments of valid levels, assigning one of
    0, 10, 20, 30, 40, 50 to [log_level] returns, stores the value, and
    sets the level of the application's logger to exactly that value.  The
    logger's effective level is that value when it is not 0; for 0
    (NOTSET) the effective level is the root logger's level. *)
Theorem log_level_live_binding (s0 : State) (vs : list Z) (v : Z) :
  (__init__ s0).1 = Return tt ->
  Forall (fun v => v ∈ log_level_values) vs ->
  v ∈ log_level_values ->
  let r := (__init__ ;; assign_levels vs ;; assign_log_level (PyInt v)) s0 in
  r.1 = Return tt /\
  log_level r.2 = v /\
  own_level r.2 = Some v /\
  own_effective_level r.2 = Some (if v =? 0 then root_level s0 else v).
Proof.
  intros Hinit Hvs Hv r.
  destruct (init_wired s0 Hinit) as (Hw1 & Hroot1).
  pose (s1 := (__init__ s0).2).
  destruct (assign_levels_wired vs s1 Hw1 Hvs) as (Hr2 & Hw2 & Hroot2).
  pose (s2 := (assign_levels vs s1).2).
  assert (Hrun : r = assign_log_level (PyInt v) s2).
  { subst r s2 s1. unfold bind at 1.
    destruct (__init__ s0) as [o1 t1]. cbn [fst snd] in *. subst o1.
    unfold bind at 1.
    destruct (assign_levels vs t1) as [o2 t2]. cbn [fst snd] in *. now subst o2. }
  rewrite Hrun. clear Hrun r.
  destruct (assign_log_level_wired s2 v Hw2 Hv) as (Hr3 & Hw3 & Hroot3 & Hlvl & Hown).
  repeat split; try assumption.
  unfold own_effective_level. unfold own_level in Hown.
  destruct (log (assign_log_level (PyInt v) s2).2) as [lg|]; [| discriminate].
  apply (effective_of_level lg) in Hown.
  cbn [mbind option_bind]. rewrite Hown, Hroot3.
  fold s2 in Hroot2. fold s1 in Hroot1. now rewrite Hroot2, Hroot1.
Qed.

Lemma log_level_live_binding_witness :
  let r := (__init__ ;; assign_levels [10; 50] ;; assign_log_level (PyInt 20))
             (Sample.fresh_instance Sample.MyApp) in
  r.1 = Return tt /\ log_level r.2 = 20 /\ own_level r.2 = Some 20 /\
  own_effective_level r.2 = Some 20.
Proof.
  apply (log_level_live_binding (Sample.fresh_instance Sample.MyApp) [10; 50] 20).
  - reflexivity.
  - repeat constructor.
  - repeat constructor.
Defined.

(** C6 as stated fails for the value 0: in a process whose root logger has
    its default level WARNING (30), setting [log_level] to 0 sets the
    logger's own level to 0 and leaves its effective level at 30. *)
Lemma log_level_zero_effective :
  let r := (__init__ ;; assign_log_level (PyInt 0)) (Sample.fresh_instance Sample.MyApp) in
  0 ∈ log_level_values /\
  r.1 = Return tt /\
  own_level r.2 = Some 0 /\
  own_effective_level r.2 = Some 30 /\
  own_effective_level r.2 <> Some 0.
Proof.
  cbv zeta. split; [repeat constructor |].
  repeat split; try reflexivity.
  vm_compute. discriminate.
Qed.

(** ** [update_config] (lines 196-204) *)

Section UpdateConfig.

Variable config_log_level : PyClass -> Config -> option pyval.

Lemma log_level_changed_frame {C} (f : State -> C) name old new :
  (forall v s, f (with_loggers v s) = f s) ->
  preserves f (_log_level_changed name old new).
Proof.
  intros Hloggers. unfold _log_level_changed, setLevel. frame.
Qed.

Lemma assign_log_level_frame {C} (f : State -> C) v :
  (forall v s, f (with_loggers v s) = f s) ->
  (forall v s, f (with_log_level v s) = f s) ->
  preserves f (assign_log_level v).
Proof.
  intros Hloggers Hlevel. unfold assign_log_level.
  unfold _log_level_changed, setLevel. frame.
Qed.

Lemma config_changed_frame {C} (f : State -> C) name old new :
  (forall v s, f (with_loggers v s) = f s) ->
  (forall v s, f (with_log_level v s) = f s) ->
  preserves f (_config_changed config_log_level name old new).
Proof.
  intros Hloggers Hlevel. unfold _config_changed. frame.
  now apply assign_log_level_frame.
Qed.

(** The state in which the change notification of [self.config = cfg]
    starts: the merged copy sits at a new location and [self.config] is
    the incoming reference. *)
Lemma update_config_unfold s cfg :
  let m := fresh (dom (heap s)) in
  let copied := <[m := deref s (config s)]> (heap s) in
  let s1 := with_heap copied s in
  update_config config_log_level cfg s =
  _config_changed config_log_level "config" (config s) cfg
    (with_config cfg
       (with_heap (<[m := merge_config (deref s1 m) (deref s1 cfg)]> copied) s1)).
Proof. reflexivity. Qed.

(** C1: for every prior state and every incoming Config object [cfg],
    after [update_config(cfg)] the reference stored in [self.config] is
    [cfg] itself and the object it denotes still has the items it came
    with; the merge of a copy of the prior config with [cfg] was computed
    into a new object that [self.config] does not refer to. *)
Theorem update_config_stores_incoming (s : State) (cfg : loc) :
  is_Some (heap s !! cfg) ->
  let s' := (update_config config_log_level cfg s).2 in
  config s' = cfg /\
  deref s' (config s') = deref s cfg /\
  exists merged,
    heap s !! merged = None /\
    heap s' !! merged = Some (merge_config (deref s (config s)) (deref s cfg)) /\
    config s' <> merged.
Proof.
  intros Hcfg s'.
  pose proof (update_config_unfold s cfg) as Hrun. cbv zeta in Hrun.
  set (m := fresh (dom (heap s))) in *.
  assert (Hfresh : heap s !! m = None).
  { apply not_elem_of_dom. apply is_fresh. }
  assert (Hne : m <> cfg).
  { intros ->. rewrite Hfresh in Hcfg. now destruct Hcfg. }
  assert (Hc : config s' = cfg).
  { subst s'. rewrite Hrun. now rewrite (config_changed_frame config). }
  assert (Hh : heap s' =
               <[m := merge_config (deref s (config s)) (deref s cfg)]>
                 (<[m := deref s (config s)]> (heap s))).
  { subst s'. rewrite Hrun. rewrite (config_changed_frame heap) by reflexivity.
    cbn [heap with_config with_heap]. unfold deref. cbn [heap with_heap].
    now rewrite lookup_insert_eq, (lookup_insert_ne _ m cfg). }
  split; [exact Hc | split].
  - rewrite Hc. unfold deref. rewrite Hh.
    now rewrite !(lookup_insert_ne _ m cfg).
  - exists m. split; [exact Hfresh | split].
    + rewrite Hh. apply lookup_insert_eq.
    + rewrite Hc. congruence.
Qed.

End UpdateConfig.

(** ** Help rendering (lines 133-194) *)

Lemma with_stdout_same s : with_stdout (stdout s) s = s.
Proof. now destruct s. Qed.

Lemma emits_ret s : emits (ret tt) s [].
Proof. unfold emits, ret. now rewrite app_nil_r, with_stdout_same. Qed.

Lemma emits_print s items : emits (print items) s [String.concat " " items].
Proof. reflexivity. Qed.

Lemma emits_bind (m1 m2 : M unit) s l1 l2 :
  emits m1 s l1 ->
  emits m2 (with_stdout (stdout s ++ l1) s) l2 ->
  emits (m1 ;; m2) s (l1 ++ l2).
Proof.
  unfold emits, bind. intros -> ->. f_equal.
  destruct s. cbn. now rewrite app_assoc.
Qed.

Lemma emits_get (k : State -> M unit) s l :
  emits (k s) s l -> emits (s' <- get ;; k s') s l.
Proof. intros H. exact H. Qed.

Lemma emits_for_each {A} (xs : list A) (body : A -> M unit) (lines : A -> list string) :
  Forall (fun x => forall s, emits (body x) s (lines x)) xs ->
  forall s, emits (for_each xs body) s (flat_map lines xs).
Proof.
  induction 1 as [| x xs Hx _ IH]; intros s; cbn [for_each flat_map].
  - apply emits_ret.
  - apply emits_bind; [apply Hx | apply IH].
Qed.

(** A computation that raises after printing [lines]. *)
Lemma raises_after (m1 m2 : M unit) s l e s' :
  emits m1 s l ->
  m2 (with_stdout (stdout s ++ l) s) = (Raise e, s') ->
  (m1 ;; m2) s = (Raise e, s').
Proof. unfold emits, bind. now intros -> ->. Qed.

Lemma raises_after_some (m1 m2 : M unit) s l (P : exn -> Prop) :
  emits m1 s l ->
  (exists e, P e /\ (m2 (with_stdout (stdout s ++ l) s)).1 = Raise e) ->
  exists e, P e /\ ((m1 ;; m2) s).1 = Raise e.
Proof. unfold emits, bind. now intros ->. Qed.

Lemma bind_raise_outcome {A B} (m : M A) (k : A -> M B) s e :
  (m s).1 = Raise e -> (bind m k s).1 = Raise e.
Proof. unfold bind. destruct (m s) as [[a | e' | n] s']; cbn; congruence. Qed.

Section Help.

Variable indent : string -> string.
Variable class_print_help : PyClass -> list string.

Lemma print_flag_emits entry s :
  flag_ok entry.2 = true ->
  emits (print_flag indent entry) s (flag_lines indent entry).
Proof.
  destruct entry as [m v]. cbn [snd]. intros Hok.
  destruct v as [| | | [|a [|b [|c l]]] | [|a [|b [|c l]]] | |]; try discriminate;
    cbn in Hok; apply andb_true_iff in Hok as [_ Hb];
    destruct b as [| | h | | | |]; try discriminate.
  - change (print_flag indent (m, PyTuple [a; PyStr h]))
      with (print ["--" +:+ m] ;; print [indent h]).
    apply (emits_bind _ _ s [_] [_]); apply emits_print.
  - change (print_flag indent (m, PyList [a; PyStr h]))
      with (print ["--" +:+ m] ;; print [indent h]).
    apply (emits_bind _ _ s [_] [_]); apply emits_print.
Qed.

Lemma print_alias_run cs entry s :
  print_alias indent (classdict cs) entry s =
  match resolve_alias cs entry.2 with
  | inl e => (Raise e, s)
  | inr t => (Return tt, with_stdout (stdout s ++ alias_lines indent entry t) s)
  end.
Proof.
  destruct entry as [alias longname]. unfold print_alias, resolve_alias. cbn [snd].
  destruct (split_dotted longname) as [e | [classname traitname]]; [reflexivity |].
  unfold bind at 1. cbn [lift ret].
  destruct (dict_getitem (classdict cs) classname) as [e | cls]; [reflexivity |].
  unfold bind at 1. cbn [lift ret].
  destruct (dict_getitem (class_traits_config cls) traitname) as [e | t]; [reflexivity |].
  unfold bind at 1. cbn [lift ret]. unfold alias_lines. cbn [fst snd].
  destruct (trait_help t) as [h |]; [destruct (String.eqb h "") |].
  - reflexivity.
  - unfold print, modify. destruct s. cbn. now rewrite <- app_assoc.
  - reflexivity.
Qed.

Lemma print_alias_emits cs entry s :
  alias_ok cs entry = true ->
  emits (print_alias indent (classdict cs) entry) s (alias_entry_lines indent cs entry).
Proof.
  unfold alias_ok, alias_entry_lines, emits. rewrite print_alias_run.
  now destruct (resolve_alias cs entry.2).
Qed.

Lemma print_flag_help_emits s :
  Forall (fun kv => flag_ok kv.2 = true) (flags s) ->
  emits (print_flag_help indent) s (flag_help_output indent s).
Proof.
  intros Hok. unfold print_flag_help, flag_help_output. apply emits_get.
  destruct (flags s) as [| entry fl] eqn:Hfl; [apply emits_ret |].
  change (flag_header s) with (["Flags"] ++ ["-----"] ++ [flag_description s] ++ [""]).
  rewrite <- !app_assoc.
  repeat (apply emits_bind; [apply emits_print |]).
  apply emits_bind; [| apply emits_print].
  apply emits_for_each. eapply Forall_impl; [exact Hok |].
  intros kv Hkv s'. now apply print_flag_emits.
Qed.

Lemma print_alias_help_emits s :
  Forall (fun kv => alias_ok (classes s) kv = true) (aliases s) ->
  emits (print_alias_help indent) s (alias_help_output indent s).
Proof.
  intros Hok. unfold print_alias_help, alias_help_output. apply emits_get.
  destruct (aliases s) as [| entry al] eqn:Hal; [apply emits_ret |].
  change (alias_header s) with (["Aliases"] ++ ["-------"] ++ [alias_description s] ++ [""]).
  rewrite <- !app_assoc.
  repeat (apply emits_bind; [apply emits_print |]).
  apply emits_bind; [| apply emits_print].
  apply emits_for_each. eapply Forall_impl; [exact Hok |].
  intros kv Hkv s'. now apply print_alias_emits.
Qed.

Lemma emits_lines (lines : list string) s :
  emits (for_each lines (fun line => print [line])) s lines.
Proof.
  replace lines with (flat_map (fun line : string => [line]) lines) at 2.
  - apply emits_for_each. apply Forall_forall. intros line _ s'. apply emits_print.
  - induction lines as [| l ls IH]; cbn; [reflexivity | now rewrite IH].
Qed.

Lemma print_help_emits s :
  tables_ok s ->
  emits (print_help indent class_print_help) s (help_output indent class_print_help s).
Proof.
  intros [Hflags Haliases]. unfold print_help, help_output.
  apply emits_bind; [now apply print_flag_help_emits |].
  apply emits_bind.
  { change (alias_help_output indent s)
      with (alias_help_output indent (with_stdout (stdout s ++ flag_help_output indent s) s)).
    now apply print_alias_help_emits. }
  apply emits_get. cbn [classes with_stdout keyvalue_description].
  unfold class_help_output. apply emits_bind.
  - destruct (classes s); [apply emits_ret |].
    change ["Class parameters"; "----------------"; keyvalue_description s; ""]
      with (["Class parameters"] ++ ["----------------"] ++ [keyvalue_description s] ++ [""]).
    repeat (apply emits_bind; [apply emits_print |]). apply emits_print.
  - apply emits_for_each. apply Forall_forall. intros cls _ s'.
    apply emits_bind; [apply emits_lines | apply emits_print].
Qed.

(** C8, as amended: with an empty table the flag help and the alias help
    print nothing.  With a table that is not empty, when every flag value
    is a pair of a mapping and a string and every alias resolves to a
    configurable trait of a registered class, each prints its header, the
    static description and a blank line, then the entries in the table's
    own order, then a blank line; the output has a line ["--<name>"] for
    every flag name and a line beginning with the alias name for every
    alias. *)
Theorem help_sections (s : State) :
  (flags s = [] -> print_flag_help indent s = (Return tt, s)) /\
  (aliases s = [] -> print_alias_help indent s = (Return tt, s)) /\
  (flags s <> [] ->
   Forall (fun kv => flag_ok kv.2 = true) (flags s) ->
   emits (print_flag_help indent) s
     (flag_header s ++ flat_map (flag_lines indent) (flags s) ++ [""]) /\
   forall m v, (m, v) ∈ flags s ->
     "--" +:+ m ∈ flat_map (flag_lines indent) (flags s)) /\
  (aliases s <> [] ->
   Forall (fun kv => alias_ok (classes s) kv = true) (aliases s) ->
   emits (print_alias_help indent) s
     (alias_header s ++ flat_map (alias_entry_lines indent (classes s)) (aliases s) ++ [""]) /\
   forall alias longname, (alias, longname) ∈ aliases s ->
     exists t, resolve_alias (classes s) longname = inr t /\
       String.concat " " [alias; "(" +:+ longname +:+ ")"; ":"; trait_class_name t]
         ∈ flat_map (alias_entry_lines indent (classes s)) (aliases s)).
Proof.
  split; [| split; [| split]].
  - intros Hnil. unfold print_flag_help, bind, get. now rewrite Hnil.
  - intros Hnil. unfold print_alias_help, bind, get. now rewrite Hnil.
  - intros Hne Hflags. split.
    + pose proof (print_flag_help_emits s Hflags) as Hrun.
      unfold flag_help_output in Hrun. now destruct (flags s).
    + intros m v Hin. apply list_elem_of_In, in_flat_map.
      exists (m, v). split; [now apply list_elem_of_In |].
      rewrite Forall_forall in Hflags. specialize (Hflags _ Hin). cbn [snd] in Hflags.
      unfold flag_lines. cbn [fst snd].
      destruct v as [| | | [|a [|b [|c l]]] | [|a [|b [|c l]]] | |]; try discriminate;
        cbn in Hflags; apply andb_true_iff in Hflags as [_ Hb];
        destruct b; try discriminate; now left.
  - intros Hne Haliases. split.
    + pose proof (print_alias_help_emits s Haliases) as Hrun.
      unfold alias_help_output in Hrun. now destruct (aliases s).
    + intros alias longname Hin.
      rewrite Forall_forall in Haliases. specialize (Haliases _ Hin).
      unfold alias_ok in Haliases. cbn [snd] in Haliases.
      destruct (resolve_alias (classes s) longname) as [e | t] eqn:Hres; [discriminate |].
      exists t. split; [reflexivity |].
      apply list_elem_of_In, in_flat_map.
      exists (alias, longname). split; [now apply list_elem_of_In |].
      unfold alias_entry_lines. cbn [snd]. rewrite Hres. now left.
Qed.

(** *** Aliases that do not resolve *)

Lemma classdict_missing cs (name : string) :
  (forall c, c ∈ cs -> cls_name c <> name) -> classdict cs !! name = None.
Proof.
  unfold classdict. generalize (∅ : gmap string PyClass) (lookup_empty (M:=gmap string) (A:=PyClass) name).
  induction cs as [| c cs IH]; intros d Hd Hcs; cbn [foldl]; [exact Hd |].
  apply IH.
  - rewrite lookup_insert_ne; [exact Hd |]. apply Hcs. now left.
  - intros c' Hc'. apply Hcs. now right.
Qed.

Lemma not_configurable cls (name : string) :
  (forall t, cls_traits cls !! name = Some t -> trait_config t = false) ->
  class_traits_config cls !! name = None.
Proof.
  intros H. unfold class_traits_config. apply map_lookup_filter_None. right.
  intros t Ht. cbn. rewrite (H t Ht). discriminate.
Qed.

Lemma unresolved_key_error cs longname :
  unresolved cs longname -> exists k, resolve_alias cs longname = inl (KeyError k).
Proof.
  intros (classname & traitname & Hsplit & Hwhy).
  unfold resolve_alias, split_dotted. rewrite Hsplit. unfold dict_getitem.
  destruct Hwhy as [Hmissing | (cls & Hcls & Htrait)].
  - rewrite (classdict_missing _ _ Hmissing). eauto.
  - rewrite Hcls, (not_configurable _ _ Htrait). eauto.
Qed.

Lemma dotted_key_error cs longname e :
  is_Some (split_first_dot longname) ->
  resolve_alias cs longname = inl e -> exists k, e = KeyError k.
Proof.
  intros [[classname traitname] Hsplit].
  unfold resolve_alias, split_dotted. rewrite Hsplit. unfold dict_getitem.
  destruct (classdict cs !! classname) as [cls |]; [| intros [= <-]; eauto].
  destruct (class_traits_config cls !! traitname); [discriminate | intros [= <-]; eauto].
Qed.

(** The outcome of the constructor is decided by the flags table alone. *)
Lemma validation_outcome fl s s' :
  (for_each fl check_flag s).1 = (for_each fl check_flag s').1.
Proof.
  induction fl as [| [key value] fl IH]; [reflexivity |].
  cbn [for_each]. unfold bind.
  pose proof (check_flag_state (key, value) s) as Hs.
  pose proof (check_flag_state (key, value) s') as Hs'. unfold id in Hs, Hs'.
  assert (Ho : (check_flag (key, value) s).1 = (check_flag (key, value) s').1).
  { unfold check_flag, bind, lift, assert_, ret, raise.
    destruct (py_len value) as [e | n]; [reflexivity |]. cbn.
    destruct (n =? 2); [| reflexivity]. cbn.
    destruct (py_getitem value 0) as [e | v0]; [reflexivity |]. cbn.
    destruct (is_mapping v0); [| reflexivity]. cbn.
    destruct (py_getitem value 1) as [e | v1]; [reflexivity |]. cbn.
    destruct (is_basestring v1); reflexivity. }
  destruct (check_flag (key, value) s) as [o t], (check_flag (key, value) s') as [o' t'].
  cbn [fst snd] in *. subst. destruct o' as [[] | e | n]; try reflexivity. apply IH.
Qed.

Lemma init_outcome_by_flags s s' :
  flags s = flags s' -> (__init__ s).1 = (__init__ s').1.
Proof.
  intros Hfl. rewrite !init_unfold. unfold bind. rewrite <- Hfl.
  pose proof (validation_outcome (flags s)
                (with_classes (self_class s :: classes s) s)
                (with_classes (self_class s' :: classes s') s')) as Ho.
  destruct (for_each (flags s) check_flag (with_classes (self_class s :: classes s) s))
    as [o t].
  destruct (for_each (flags s) check_flag (with_classes (self_class s' :: classes s') s'))
    as [o' t'].
  cbn [fst] in Ho. subst o'. destruct o as [[] | e | n]; try reflexivity.
  now rewrite !init_logging_returns.
Qed.

Lemma alias_loop_first_unresolved cs (pre post : list (string * string)) entry :
  Forall (fun kv => is_Some (split_first_dot kv.2)) pre ->
  unresolved cs entry.2 ->
  forall s, exists k,
    (for_each (pre ++ entry :: post) (print_alias indent (classdict cs)) s).1 =
      Raise (KeyError k).
Proof.
  intros Hdot Hbad. induction Hdot as [| head pre Hhead _ IH]; intros s;
    cbn [app for_each]; unfold bind; rewrite print_alias_run.
  - destruct (unresolved_key_error _ _ Hbad) as [k ->]. now exists k.
  - destruct (resolve_alias cs head.2) as [e | t] eqn:Hres.
    + destruct (dotted_key_error _ _ _ Hhead Hres) as [k ->]. now exists k.
    + apply IH.
Qed.

(** C7, as amended: when the alias table has an entry whose dotted target
    names a class that is not in the class registry, or a trait that is
    not a configurable trait of the class found under that name, and every
    entry before it in the table has a dotted target, [print_alias_help]
    raises a KeyError; the constructor does not look at the alias table,
    its outcome is the same whatever the table holds. *)
Theorem alias_lookup_error (s : State) (pre post : list (string * string))
    (entry : string * string) :
  aliases s = pre ++ entry :: post ->
  Forall (fun kv => is_Some (split_first_dot kv.2)) pre ->
  unresolved (classes s) entry.2 ->
  (exists k, (print_alias_help indent s).1 = Raise (KeyError k)) /\
  (forall al, (__init__ (with_aliases al s)).1 = (__init__ s).1).
Proof.
  intros Hal Hdot Hbad. split.
  - cut (exists e, (exists k, e = KeyError k) /\ (print_alias_help indent s).1 = Raise e).
    { intros (e & [k ->] & He). now exists k. }
    unfold print_alias_help, bind at 1, get at 1. rewrite Hal.
    remember (pre ++ entry :: post) as table eqn:Htable.
    destruct table as [| e0 table]; [now destruct pre |]. rewrite Htable.
    do 4 (eapply raises_after_some; [apply emits_print |]).
    match goal with |- context [bind _ _ ?t] =>
      destruct (alias_loop_first_unresolved (classes s) pre post entry Hdot Hbad t)
        as [k Hk]
    end.
    exists (KeyError k). split; [now exists k |].
    now apply bind_raise_outcome.
  - intros al. now apply init_outcome_by_flags.
Qed.

End Help.

(** ** [parse_command_line] (lines 206-222) *)

Lemma bind_no_return {A} (m : M A) (k : A -> M A) s :
  (forall a, (m s).1 <> Return a) -> bind m k s = m s.
Proof.
  intros H. unfold bind. destruct (m s) as [[a | e | n] s'] eqn:Hm; try reflexivity.
  now destruct (H a).
Qed.

Lemma no_return_bind {A B} (m : M A) (k : A -> M B) s :
  (forall a s', forall b, (k a s').1 <> Return b) ->
  forall b, (bind m k s).1 <> Return b.
Proof.
  intros H b. unfold bind. destruct (m s) as [[a | e | n] s']; cbn; try discriminate.
  apply H.
Qed.

Lemma with_stdout_reset out s s' :
  with_stdout [] s' = with_stdout [] s -> with_stdout out s' = with_stdout out s.
Proof. destruct s, s'. cbn. intros [=]. now subst. Qed.

Lemma no_exit_bind {A B} (m : M A) (k : A -> M B) :
  no_exit m -> (forall a, no_exit (k a)) -> no_exit (bind m k).
Proof.
  intros Hm Hk s n. unfold bind. specialize (Hm s).
  destruct (m s) as [[a | e | n'] s1]; cbn [fst] in *.
  - apply Hk.
  - discriminate.
  - now destruct (Hm n').
Qed.

Lemma no_exit_outcome {A} (m : M A) :
  (forall s, exists o, (m s).1 = o /\ forall n, o <> Exit n) -> no_exit m.
Proof. intros H s n. destruct (H s) as (o & -> & Ho). apply Ho. Qed.

Lemma no_exit_lift {A} (r : exn + A) : no_exit (lift r).
Proof. intros s n. now destruct r. Qed.

Lemma no_exit_modify (f : State -> State) : no_exit (modify f).
Proof. intros s n. discriminate. Qed.

Lemma no_exit_for_each {A} (xs : list A) (body : A -> M unit) :
  (forall x, no_exit (body x)) -> no_exit (for_each xs body).
Proof.
  intros Hb. induction xs as [| x xs IH]; cbn [for_each].
  - intros s n. discriminate.
  - apply no_exit_bind; [apply Hb | intros _; apply IH].
Qed.

(** None of the leaves of the help methods is [sys.exit]. *)
Ltac stays :=
  repeat first
    [ apply no_exit_for_each; intros ?
    | apply no_exit_modify
    | apply no_exit_lift
    | solve [ intros ? ?; discriminate ]
    | apply no_exit_bind; [| intros ? ]
    | match goal with
      | |- no_exit (match ?x with _ => _ end) => destruct x
      end ].

Lemma print_help_no_exit indent class_print_help :
  no_exit (print_help indent class_print_help).
Proof.
  unfold print_help, print_flag_help, print_alias_help, print_flag, print_alias, print.
  stays.
Qed.

Section Parse.

Variable indent : string -> string.
Variable class_print_help : PyClass -> list string.
Variable sys_argv : list string.
Variable kv_load_config :
  list string -> list (string * string) -> list (string * pyval) -> exn + Config.
Variable config_log_level : PyClass -> Config -> option pyval.

Local Abbreviation parse :=
  (parse_command_line indent class_print_help sys_argv kv_load_config config_log_level).

Lemma help_path_no_return s a : (help_path indent class_print_help s).1 <> Return a.
Proof.
  unfold help_path. apply no_return_bind. intros _ s1.
  apply no_return_bind. intros _ s2 b. discriminate.
Qed.

Lemma version_path_run s :
  version_path s = (Exit 1, with_stdout (stdout s ++ [version s]) s).
Proof. reflexivity. Qed.

Lemma parse_help_path argv s :
  wants_help argv -> parse (Some argv) s = help_path indent class_print_help s.
Proof.
  intros Hh. unfold parse_command_line.
  assert (Hb : bool_decide ("-h" ∈ argv) || bool_decide ("--help" ∈ argv) = true).
  { apply orb_true_iff. destruct Hh; [left | right]; now apply bool_decide_eq_true_2. }
  rewrite Hb. apply bind_no_return. intros a. apply help_path_no_return.
Qed.

Lemma parse_version_path argv s :
  ~ wants_help argv -> "--version" ∈ argv -> parse (Some argv) s = version_path s.
Proof.
  intros Hh Hv. unfold parse_command_line.
  assert (Hb : bool_decide ("-h" ∈ argv) || bool_decide ("--help" ∈ argv) = false).
  { apply orb_false_iff. split; apply bool_decide_eq_false_2; intros H; apply Hh;
      [now left | now right]. }
  rewrite Hb, (bool_decide_eq_true_2 _ Hv).
  unfold bind at 1. cbn [ret]. apply bind_no_return. intros a. discriminate.
Qed.

(** The help path prints the description and a blank line, runs
    [print_help], and exits with status 1 if that returned. *)
Lemma help_path_run s :
  let s2 := with_stdout (stdout s ++ [description s; ""]) s in
  help_path indent class_print_help s =
  (match (print_help indent class_print_help s2).1 with
   | Return _ => Exit 1
   | Raise e => Raise e
   | Exit n => Exit n
   end, (print_help indent class_print_help s2).2).
Proof.
  cbv zeta. unfold help_path.
  assert (Hd : emits print_description s [description s; ""]).
  { unfold print_description. apply emits_get.
    apply (emits_bind _ _ s [_] [_]); apply emits_print. }
  unfold bind at 1. rewrite Hd. unfold bind, sys_exit.
  now destruct (print_help indent class_print_help _) as [[[] | e | n] t].
Qed.

Lemma help_path_exits s :
  tables_ok s ->
  help_path indent class_print_help s =
  (Exit 1, with_stdout (stdout s ++ [description s; ""] ++
                        help_output indent class_print_help s) s).
Proof.
  intros Hok. rewrite help_path_run. cbv zeta.
  pose proof (print_help_emits indent class_print_help
                (with_stdout (stdout s ++ [description s; ""]) s) Hok) as Hrun.
  unfold emits in Hrun. rewrite Hrun. cbn [fst snd]. f_equal.
  destruct s. cbn. now rewrite <- app_assoc.
Qed.

Lemma print_help_frame : preserves (with_stdout []) (print_help indent class_print_help).
Proof.
  unfold print_help, print_flag_help, print_alias_help, print_flag, print_alias, print.
  frame.
Qed.

Lemma help_path_frame : preserves (with_stdout []) (help_path indent class_print_help).
Proof.
  unfold help_path.
  apply preserves_bind; [unfold print_description, print; frame | intros _].
  apply preserves_bind; [apply print_help_frame | intros _; apply preserves_exit].
Qed.

Lemma update_config_returns s cfg c :
  heap s !! cfg = Some c ->
  config_applies config_log_level s c ->
  (update_config config_log_level cfg s).1 = Return tt.
Proof.
  intros Hcfg Happ.
  pose proof (update_config_unfold config_log_level s cfg) as Hrun. cbv zeta in Hrun.
  rewrite Hrun. clear Hrun.
  set (m := fresh (dom (heap s))).
  assert (Hne : m <> cfg).
  { intros Heq. pose proof (is_fresh (dom (heap s))) as Hf. fold m in Hf.
    apply not_elem_of_dom in Hf. congruence. }
  match goal with |- (_config_changed _ _ _ _ ?t).1 = _ => set (s3 := t) end.
  assert (Hderef : deref s3 cfg = c).
  { unfold deref, s3. cbn [heap with_config with_heap].
    now rewrite !(lookup_insert_ne _ m cfg), Hcfg by assumption. }
  unfold _config_changed, bind at 1, get at 1. rewrite Hderef.
  change (self_class s3) with (self_class s).
  unfold config_applies in Happ.
  destruct (config_log_level (self_class s) c) as [[| n | | | | |] |];
    try contradiction; [| reflexivity].
  destruct Happ as [Hn Hw].
  now apply assign_log_level_wired.
Qed.

Lemma parse_loads argv s c :
  ~ wants_help argv -> "--version" ∉ argv ->
  kv_load_config argv (aliases s) (flags s) = inr c ->
  config_applies config_log_level s c ->
  (parse (Some argv) s).1 = Return tt.
Proof.
  intros Hh Hv Hload Happ. unfold parse_command_line.
  assert (Hb : bool_decide ("-h" ∈ argv) || bool_decide ("--help" ∈ argv) = false).
  { apply orb_false_iff. split; apply bool_decide_eq_false_2; intros H; apply Hh;
      [now left | now right]. }
  rewrite Hb, (bool_decide_eq_false_2 _ Hv).
  change (((loaded <- lift (kv_load_config argv (aliases s) (flags s)) ;;
            cfg <- alloc loaded ;;
            update_config config_log_level cfg) s).1 = Return tt).
  rewrite Hload.
  change ((update_config config_log_level (fresh (dom (heap s)))
             (with_heap (<[fresh (dom (heap s)) := c]> (heap s)) s)).1 = Return tt).
  apply (update_config_returns _ _ c).
  - cbn [heap with_heap]. apply lookup_insert_eq.
  - exact Happ.
Qed.

(** C2, as amended: a command line with [-h] or [--help] anywhere runs the
    help path, [print_description], [print_help], [sys.exit(1)]; when every
    flag value is a pair of a mapping and a string and every alias
    resolves, it prints the description and the full help and exits with
    status 1.  The empty command line, with a loader that yields a Config
    the instance accepts, returns normally. *)
Theorem parse_help_exits (s : State) :
  (forall argv, wants_help argv ->
     parse (Some argv) s = help_path indent class_print_help s /\
     (tables_ok s ->
      parse (Some argv) s =
        (Exit 1, with_stdout (stdout s ++ [description s; ""] ++
                              help_output indent class_print_help s) s))) /\
  (forall c, kv_load_config [] (aliases s) (flags s) = inr c ->
     config_applies config_log_level s c ->
     (parse (Some []) s).1 = Return tt).
Proof.
  split.
  - intros argv Hh. split; [now apply parse_help_path |].
    intros Hok. rewrite parse_help_path by assumption. now apply help_path_exits.
  - intros c Hload Happ. apply (parse_loads [] s c); try assumption.
    + intros [H | H]; now apply not_elem_of_nil in H.
    + apply not_elem_of_nil.
Qed.

(** C4: a command line with [--version] and without [-h] and [--help]
    prints the version string, that one line and nothing else, and exits
    with status 1. *)
Theorem parse_version_exits (s : State) (argv : list string) :
  ~ wants_help argv -> "--version" ∈ argv ->
  parse (Some argv) s = (Exit 1, with_stdout (stdout s ++ [version s]) s).
Proof.
  intros Hh Hv. rewrite parse_version_path by assumption. apply version_path_run.
Qed.

(** How the help path ends: in [sys.exit(1)], or in the exception that
    [print_help] raised. *)
Lemma help_path_outcome s :
  let shown := print_help indent class_print_help
                 (with_stdout (stdout s ++ [description s; ""]) s) in
  (shown.1 = Return tt /\ (help_path indent class_print_help s).1 = Exit 1) \/
  (exists e, shown.1 = Raise e /\ (help_path indent class_print_help s).1 = Raise e).
Proof.
  cbv zeta. rewrite help_path_run. cbv zeta. cbn [fst].
  pose proof (print_help_no_exit indent class_print_help
                (with_stdout (stdout s ++ [description s; ""]) s)) as Hno.
  destruct (print_help indent class_print_help _).1 as [[] | e | n].
  - now left.
  - right. now exists e.
  - now destruct (Hno n).
Qed.

(** C9, as amended: with both a help token and [--version] on the command
    line the help path runs, exactly as it does for [-h] alone, and
    [print_version] is not reached: the output is the description, a blank
    line and what [print_help] prints.  The call ends with exit status 1
    when [print_help] returns, as it does with well-formed tables, after
    the full help; otherwise it ends in the exception that [print_help]
    raised. *)
Theorem help_before_version (s : State) (argv : list string) :
  wants_help argv -> "--version" ∈ argv ->
  let s2 := with_stdout (stdout s ++ [description s; ""]) s in
  let shown := print_help indent class_print_help s2 in
  parse (Some argv) s = parse (Some ["-h"]) s /\
  (parse (Some argv) s).2 = shown.2 /\
  ((shown.1 = Return tt /\ (parse (Some argv) s).1 = Exit 1) \/
   (exists e, shown.1 = Raise e /\ (parse (Some argv) s).1 = Raise e)) /\
  (tables_ok s ->
   parse (Some argv) s =
     (Exit 1, with_stdout (stdout s ++ [description s; ""] ++
                           help_output indent class_print_help s) s)).
Proof.
  intros Hh Hv s2 shown.
  assert (Hrun : parse (Some argv) s = help_path indent class_print_help s)
    by now apply parse_help_path.
  split; [| split; [| split]].
  - rewrite Hrun. symmetry. apply parse_help_path. left. apply elem_of_cons. now left.
  - rewrite Hrun, help_path_run. reflexivity.
  - rewrite Hrun. apply help_path_outcome.
  - intros Hok. rewrite Hrun. now apply help_path_exits.
Qed.

End Parse.

(** C10, as amended: a command line with [-h], [--help] or [--version]
    never reaches the loader or [update_config]: the call does not return
    normally, its result is the same whatever the loader and the config
    machinery are, and the state it leaves differs from the state it
    started in by the lines written to standard output only, so
    [self.config], the Config objects and every other attribute are
    unchanged.  The call ends in [sys.exit(1)] or in an exception raised
    by [print_help]: in [sys.exit(1)] on the version path, and on the help
    path when the tables are well formed. *)
Theorem special_tokens_frame
    (indent : string -> string) (class_print_help : PyClass -> list string)
    (sys_argv : list string)
    (kv_load_config :
       list string -> list (string * string) -> list (string * pyval) -> exn + Config)
    (config_log_level : PyClass -> Config -> option pyval)
    (s : State) (argv : list string) :
  wants_help argv \/ "--version" ∈ argv ->
  let r := parse_command_line indent class_print_help sys_argv kv_load_config
             config_log_level (Some argv) s in
  with_stdout (stdout s) r.2 = s /\
  config r.2 = config s /\
  (forall a, r.1 <> Return a) /\
  (forall kv_load_config' config_log_level',
     parse_command_line indent class_print_help sys_argv kv_load_config'
       config_log_level' (Some argv) s = r) /\
  (r.1 = Exit 1 \/ exists e, r.1 = Raise e) /\
  (~ wants_help argv \/ tables_ok s -> r.1 = Exit 1).
Proof.
  intros Htok r.
  assert (Hcases :
    (wants_help argv /\
     forall kv clv, parse_command_line indent class_print_help sys_argv kv clv (Some argv) s
                    = help_path indent class_print_help s) \/
    (~ wants_help argv /\
     forall kv clv, parse_command_line indent class_print_help sys_argv kv clv (Some argv) s
                    = version_path s)).
  { destruct (decide ("-h" ∈ argv)) as [H1 | H1].
    { left. split; [now left |]. intros. apply parse_help_path. now left. }
    destruct (decide ("--help" ∈ argv)) as [H2 | H2].
    { left. split; [now right |]. intros. apply parse_help_path. now right. }
    right. assert (Hno : ~ wants_help argv) by (intros [? | ?]; contradiction).
    split; [exact Hno |]. intros. apply parse_version_path; [exact Hno |].
    destruct Htok as [Hh | Hv]; [contradiction | exact Hv]. }
  assert (Hframe : with_stdout [] r.2 = with_stdout [] s).
  { subst r. destruct Hcases as [[_ Hrun] | [_ Hrun]]; rewrite Hrun.
    - apply help_path_frame.
    - reflexivity. }
  split; [| split; [| split; [| split; [| split]]]].
  - rewrite (with_stdout_reset (stdout s) s r.2 Hframe). apply with_stdout_same.
  - apply (f_equal config) in Hframe. exact Hframe.
  - intros a. subst r. destruct Hcases as [[_ Hrun] | [_ Hrun]]; rewrite Hrun.
    + apply help_path_no_return.
    + discriminate.
  - intros kv clv. subst r. destruct Hcases as [[_ Hrun] | [_ Hrun]]; now rewrite !Hrun.
  - subst r. destruct Hcases as [[_ Hrun] | [_ Hrun]]; rewrite Hrun.
    + destruct (help_path_outcome indent class_print_help s) as [[_ Hexit] | (e & _ & He)].
      * now left.
      * right. now exists e.
    + now left.
  - intros Hwhy. subst r. destruct Hcases as [[Hh Hrun] | [_ Hrun]]; rewrite Hrun.
    + destruct Hwhy as [Hno | Hok]; [contradiction |].
      now rewrite help_path_exits.
    + reflexivity.
Qed.

(** ** Concrete runs *)

Lemma update_config_stores_incoming_witness :
  let s' := (update_config Sample.config_log_level 2 Sample.two_configs).2 in
  config s' = 2%positive /\
  deref s' (config s') = [("b", PyInt 2)] /\
  exists merged,
    heap Sample.two_configs !! merged = None /\
    heap s' !! merged = Some [("a", PyInt 1); ("b", PyInt 2)] /\
    config s' <> merged.
Proof.
  apply (update_config_stores_incoming Sample.config_log_level Sample.two_configs 2).
  exists [("b", PyInt 2)]. reflexivity.
Defined.

Lemma parse_help_exits_witness :
  (parse_command_line Sample.indent Sample.class_print_help ["ipython"]
     Sample.kv_load_config Sample.config_log_level (Some ["--help"]) Sample.app).1 = Exit 1 /\
  (parse_command_line Sample.indent Sample.class_print_help ["ipython"]
     Sample.kv_load_config Sample.config_log_level (Some []) Sample.app).1 = Return tt.
Proof.
  destruct (parse_help_exits Sample.indent Sample.class_print_help ["ipython"]
              Sample.kv_load_config Sample.config_log_level Sample.app) as [Hhelp Hempty].
  split.
  - destruct (Hhelp ["--help"]) as [_ Hexit].
    + right. apply elem_of_cons. now left.
    + rewrite Hexit; [reflexivity |]. split; repeat constructor.
  - apply (Hempty []); [reflexivity | exact I].
Defined.

Lemma parse_version_exits_witness :
  parse_command_line Sample.indent Sample.class_print_help ["ipython"]
    Sample.kv_load_config Sample.config_log_level (Some ["--version"]) Sample.app =
  (Exit 1, with_stdout ["0.0"] Sample.app).
Proof.
  apply (parse_version_exits Sample.indent Sample.class_print_help ["ipython"]
           Sample.kv_load_config Sample.config_log_level Sample.app ["--version"]).
  - intros [H | H]; apply elem_of_cons in H as [H | H]; try discriminate H;
      now apply not_elem_of_nil in H.
  - apply elem_of_cons. now left.
Defined.

Lemma alias_lookup_error_witness :
  (exists k, (print_alias_help Sample.indent Sample.late_failure).1 = Raise (KeyError k)) /\
  (forall al, (__init__ (with_aliases al Sample.late_failure)).1 =
              (__init__ Sample.late_failure).1).
Proof.
  apply (alias_lookup_error Sample.indent Sample.late_failure
           [("log_level", "Application.log_level")] [("x", "nodot")] ("y", "Nope.z")).
  - reflexivity.
  - repeat constructor. now exists ("Application", "log_level").
  - exists "Nope", "z". split; [reflexivity |].
    left. intros c Hc. apply elem_of_cons in Hc as [-> | Hc]; [discriminate |].
    now apply not_elem_of_nil in Hc.
Defined.

Lemma help_sections_witness :
  emits (print_flag_help Sample.indent) Sample.app
    ["Flags"; "-----"; flag_description Sample.app; "";
     "--debug"; "    enable debug"; ""] /\
  emits (print_alias_help Sample.indent) Sample.app
    ["Aliases"; "-------"; alias_description Sample.app; "";
     "log_level (Application.log_level) : Enum";
     "    Set the log level (0,10,20,30,40,50)."; ""].
Proof.
  destruct (help_sections Sample.indent Sample.app) as (_ & _ & Hflags & Haliases).
  split.
  - apply Hflags; [discriminate | repeat constructor].
  - apply Haliases; [discriminate | repeat constructor].
Defined.

Lemma help_before_version_witness :
  parse_command_line Sample.indent Sample.class_print_help ["ipython"]
    Sample.kv_load_config Sample.config_log_level (Some ["--version"; "-h"]) Sample.app =
  (Exit 1,
   with_stdout
     (["This is an application."; ""] ++
      ["Flags"; "-----"; flag_description Sample.app; "";
       "--debug"; "    enable debug"; ""] ++
      ["Aliases"; "-------"; alias_description Sample.app; "";
       "log_level (Application.log_level) : Enum";
       "    Set the log level (0,10,20,30,40,50)."; ""] ++
      ["Class parameters"; "----------------"; keyvalue_description Sample.app; "";
       "Application options"; ""])
     Sample.app).
Proof.
  destruct (help_before_version Sample.indent Sample.class_print_help ["ipython"]
              Sample.kv_load_config Sample.config_log_level Sample.app ["--version"; "-h"])
    as (_ & _ & _ & Hfull).
  - left. apply elem_of_cons. right. apply elem_of_cons. now left.
  - apply elem_of_cons. now left.
  - rewrite Hfull; [reflexivity |]. split; repeat constructor.
Defined.

Lemma special_tokens_frame_witness :
  let r := parse_command_line Sample.indent Sample.class_print_help ["ipython"]
             Sample.kv_load_config Sample.config_log_level (Some ["--help"]) Sample.app in
  with_stdout (stdout Sample.app) r.2 = Sample.app /\
  config r.2 = config Sample.app /\
  r.1 = Exit 1.
Proof.
  destruct (special_tokens_frame Sample.indent Sample.class_print_help ["ipython"]
              Sample.kv_load_config Sample.config_log_level Sample.app ["--help"])
    as (Hstate & Hconfig & _ & _ & _ & Hexit).
  - left. right. apply elem_of_cons. now left.
  - split; [exact Hstate | split; [exact Hconfig |]].
    apply Hexit. right. split; repeat constructor.
Defined.

(** C8 as stated fails: a [MyApp] constructed with the class defaults has
    a non-empty alias table, and [print_alias_help] prints the header, the
    description and a blank line, then raises the KeyError of line 149:
    no printed line contains the alias name. *)
Lemma alias_help_stops_short :
  let r := print_alias_help Sample.indent Sample.sub_app in
  aliases Sample.sub_app = [("log_level", "Application.log_level")] /\
  r.1 = Raise (KeyError (PyStr "Application")) /\
  stdout r.2 = alias_header Sample.sub_app /\
  Forall (fun line => contains "log_level" line = false) (stdout r.2).
Proof.
  cbv zeta. split; [reflexivity | split; [reflexivity | split; [reflexivity |]]].
  repeat constructor.
Qed.

(** C2 as stated fails: for a [MyApp] constructed with the class defaults
    the command line [-h] prints the description and the alias header,
    then [print_help] raises the KeyError of line 149 and [sys.exit] is not
    reached. *)
Lemma parse_help_key_error :
  let r := parse_command_line Sample.indent Sample.class_print_help ["ipython"]
             Sample.kv_load_config Sample.config_log_level (Some ["-h"]) Sample.sub_app in
  wants_help ["-h"] /\
  r.1 = Raise (KeyError (PyStr "Application")) /\
  r.1 <> Exit 1 /\
  stdout r.2 = [description Sample.sub_app; ""] ++ alias_header Sample.sub_app.
Proof.
  cbv zeta. split; [| split; [| split]].
  - left. apply elem_of_cons. now left.
  - reflexivity.
  - vm_compute. discriminate.
  - reflexivity.
Qed.

(** * Further properties of the module *)

(** ** [init_logging] and the constructor *)

Lemma init_logging_spec (s : State) :
  let name := cls_name (self_class s) in
  let s' := (init_logging s).2 in
  (init_logging s).1 = Return tt /\
  log s' = Some name /\
  loggers s' !! name = Some (MkLogger (log_level s) (handlers_of name s ++ [stream_handler])) /\
  (forall other, other <> name -> loggers s' !! other = loggers s !! other) /\
  with_log (log s) (with_loggers (loggers s) s') = s.
Proof.
  cbv zeta. unfold init_logging, getLogger, bind, get, handlers_of.
  destruct (loggers s !! cls_name (self_class s)) as [l |] eqn:Hl; cbn.
  - repeat split.
    + now rewrite !lookup_alter_eq, Hl.
    + intros other Hne. now rewrite !lookup_alter_ne.
    + now destruct s.
  - repeat split.
    + now rewrite !lookup_alter_eq, lookup_insert_eq.
    + intros other Hne. now rewrite !lookup_alter_ne, lookup_insert_ne.
    + now destruct s.
Qed.

(** X1: [init_logging] binds [self.log] to the logger named after the
    instance's class; that logger gets the instance's [log_level] as its
    level and one more handler at the end of the handlers it had (it is
    created without handlers if it did not exist).  Every other logger and
    every other part of the state are left as they were. *)
Theorem init_logging_effect (s : State) :
  let name := cls_name (self_class s) in
  let s' := (init_logging s).2 in
  (init_logging s).1 = Return tt /\
  log s' = Some name /\
  loggers s' !! name = Some (MkLogger (log_level s) (handlers_of name s ++ [stream_handler])) /\
  (forall other, other <> name -> loggers s' !! other = loggers s !! other) /\
  with_log (log s) (with_loggers (loggers s) s') = s.
Proof.
  cbv zeta. unfold init_logging, getLogger, bind, get, handlers_of.
  destruct (loggers s !! cls_name (self_class s)) as [l |] eqn:Hl; cbn.
  - repeat split.
    + now rewrite !lookup_alter_eq, Hl.
    + intros other Hne. now rewrite !lookup_alter_ne.
    + now destruct s.
  - repeat split.
    + now rewrite !lookup_alter_eq, lookup_insert_eq.
    + intros other Hne. now rewrite !lookup_alter_ne, lookup_insert_ne.
    + now destruct s.
Qed.

Lemma init_run s :
  Forall (fun kv => flag_ok kv.2 = true) (flags s) ->
  __init__ s = init_logging (with_classes (self_class s :: classes s) s).
Proof.
  intros Hok. rewrite init_unfold. unfold bind.
  now rewrite (validation_all_ok (flags s) _ Hok).
Qed.

(** X2: loggers are shared by name.  When a second instance of a class is
    constructed in a process where an instance of a class of the same name
    was constructed before, the logger keeps the handlers it had and gets
    one more, and its level becomes the second instance's [log_level]. *)
Theorem second_instance_shares_logger (first second : State) :
  Forall (fun kv => flag_ok kv.2 = true) (flags first) ->
  Forall (fun kv => flag_ok kv.2 = true) (flags second) ->
  cls_name (self_class second) = cls_name (self_class first) ->
  loggers second = loggers (__init__ first).2 ->
  let name := cls_name (self_class first) in
  loggers (__init__ second).2 !! name =
    Some (MkLogger (log_level second)
            (handlers_of name first ++ [stream_handler; stream_handler])).
Proof.
  intros Hfirst Hsecond Hname Hshared. cbv zeta.
  rewrite (init_run second Hsecond).
  destruct (init_logging_spec (with_classes (self_class second :: classes second) second))
    as (_ & _ & Hlogger & _).
  cbn [self_class with_classes log_level] in Hlogger. rewrite Hname in Hlogger.
  rewrite Hlogger. clear Hlogger. do 2 f_equal.
  unfold handlers_of at 1. cbn [loggers with_classes]. rewrite Hshared.
  rewrite (init_run first Hfirst).
  destruct (init_logging_spec (with_classes (self_class first :: classes first) first))
    as (_ & _ & Hlogger & _).
  cbn [self_class with_classes log_level] in Hlogger. rewrite Hlogger. cbn.
  now rewrite <- app_assoc.
Qed.

(** X3: the constructor prints nothing and does not touch the config, the
    Config objects or the tables; what it changes is [classes], [self.log]
    and the logger registry.  When it raises, the insertion of line 106 has
    happened and nothing else: no logger was created or changed. *)
Theorem init_frame (s : State) :
  let s' := (__init__ s).2 in
  with_classes (classes s) (with_log (log s) (with_loggers (loggers s) s')) = s /\
  ((__init__ s).1 <> Return tt -> s' = with_classes (self_class s :: classes s) s).
Proof.
  cbv zeta. rewrite init_unfold. unfold bind.
  pose proof (validation_frame id (flags s) (with_classes (self_class s :: classes s) s))
    as Hid. unfold id in Hid.
  destruct (for_each (flags s) check_flag _) as [[[] | e | n] s1];
    cbn [fst snd] in *; subst s1.
  - split.
    + destruct (init_logging_spec (with_classes (self_class s :: classes s) s))
        as (_ & _ & _ & _ & Hrest).
      apply (f_equal (with_classes (classes s))) in Hrest.
      destruct s. exact Hrest.
    + intros Hne. destruct Hne. apply init_logging_returns.
  - split; [now destruct s | reflexivity].
  - split; [now destruct s | reflexivity].
Qed.

Lemma second_instance_shares_logger_witness :
  loggers (__init__ Sample.second_app).2 !! "Application" =
    Some (MkLogger 10 [stream_handler; stream_handler]).
Proof.
  apply (second_instance_shares_logger
           (with_flags Sample.debug_flags (Sample.fresh_instance Sample.Application))
           Sample.second_app).
  - repeat constructor.
  - repeat constructor.
  - reflexivity.
  - reflexivity.
Defined.

Lemma init_preserves {B} (f : State -> B) s :
  (forall v t, f (with_classes v t) = f t) ->
  (forall v t, f (with_log v t) = f t) ->
  (forall v t, f (with_loggers v t) = f t) ->
  f (__init__ s).2 = f s.
Proof.
  intros Hclasses Hlog Hloggers. rewrite init_unfold.
  rewrite (preserves_bind f _ _ (validation_frame f (flags s))).
  - apply Hclasses.
  - intros _. now apply init_logging_frame.
Qed.

Lemma all_ok_or_some_bad (fl : list (string * pyval)) :
  Forall (fun kv => flag_ok kv.2 = true) fl \/ Exists (fun kv => flag_ok kv.2 = false) fl.
Proof.
  induction fl as [| [k v] fl [IH | IH]].
  - left. constructor.
  - destruct (flag_ok v) eqn:Hv.
    + left. now constructor.
    + right. now left.
  - right. now right.
Qed.

Lemma init_returns_flags_ok s :
  Forall (fun kv => is_sequence kv.2 = true) (flags s) ->
  (__init__ s).1 = Return tt ->
  Forall (fun kv => flag_ok kv.2 = true) (flags s).
Proof.
  intros Hseq Hret. destruct (all_ok_or_some_bad (flags s)) as [Hok | Hbad]; [exact Hok |].
  destruct (first_bad_flag _ Hbad) as (pre & key & value & post & Hfl & Hpre & Hv).
  rewrite init_unfold, Hfl in Hret.
  erewrite bind_raise in Hret; [discriminate Hret |].
  apply validation_first_bad; try assumption.
  rewrite Hfl in Hseq. apply Forall_app in Hseq as [_ Hseq]. now inversion Hseq.
Qed.

(** X4: the validation of the constructor is enough for the flag help.
    When the flag values are strings, tuples or lists and [__init__]
    returned, [print_flag_help] on the constructed instance returns, having
    printed the header and the two lines of every flag. *)
Theorem validated_flags_print (indent : string -> string) (s : State) :
  Forall (fun kv => is_sequence kv.2 = true) (flags s) ->
  (__init__ s).1 = Return tt ->
  emits (print_flag_help indent) (__init__ s).2 (flag_help_output indent s).
Proof.
  intros Hseq Hret. pose proof (init_returns_flags_ok s Hseq Hret) as Hok.
  rewrite <- (init_preserves (flag_help_output indent) s) by reflexivity.
  apply print_flag_help_emits.
  now rewrite (init_preserves flags s) by reflexivity.
Qed.

Lemma validated_flags_print_witness :
  emits (print_flag_help Sample.indent) Sample.app
    ["Flags"; "-----"; flag_description Sample.app; "";
     "--debug"; "    enable debug"; ""].
Proof.
  apply (validated_flags_print Sample.indent
           (with_flags Sample.debug_flags (Sample.fresh_instance Sample.Application))).
  - repeat constructor.
  - reflexivity.
Defined.

(** ** The class dictionary of [print_alias_help] (lines 143-145) *)

Lemma classdict_app cs1 cs2 :
  classdict (cs1 ++ cs2) = foldl (fun d c => <[cls_name c := c]> d) (classdict cs1) cs2.
Proof. unfold classdict. apply foldl_app. Qed.

Lemma classdict_fold_other (cs : list PyClass) (d : gmap string PyClass) (name : string) :
  (forall c, c ∈ cs -> cls_name c <> name) ->
  foldl (fun d c => <[cls_name c := c]> d) d cs !! name = d !! name.
Proof.
  revert d. induction cs as [| c cs IH]; intros d Hcs; cbn [foldl]; [reflexivity |].
  rewrite IH.
  - apply lookup_insert_ne. apply Hcs. now left.
  - intros c' Hc'. apply Hcs. now right.
Qed.

(** X5: classes are looked up by name, and of several registered classes
    with one name the last one in the registry is the one found; a name
    that no registered class has is not found. *)
Theorem classdict_last_wins (cs : list PyClass) (name : string) :
  (forall pre c post,
     cs = pre ++ c :: post -> cls_name c = name ->
     (forall c', c' ∈ post -> cls_name c' <> name) ->
     classdict cs !! name = Some c) /\
  (classdict cs !! name = None <-> forall c, c ∈ cs -> cls_name c <> name).
Proof.
  split.
  - intros pre c post -> Hname Hpost.
    rewrite classdict_app. cbn [foldl].
    rewrite (classdict_fold_other post _ name Hpost).
    rewrite <- Hname. apply lookup_insert_eq.
  - split; [| apply classdict_missing].
    intros Hnone c Hc Hname.
    induction cs as [| c0 cs IH] using rev_ind; [now apply not_elem_of_nil in Hc |].
    rewrite classdict_app in Hnone. cbn [foldl] in Hnone.
    destruct (decide (cls_name c0 = name)) as [Heq | Hne].
    + rewrite <- Heq, lookup_insert_eq in Hnone. discriminate.
    + rewrite lookup_insert_ne in Hnone by exact Hne.
      apply elem_of_app in Hc as [Hc | Hc]; [now apply IH |].
      apply elem_of_cons in Hc as [-> | Hc]; [contradiction |].
      now apply not_elem_of_nil in Hc.
Qed.

(** ** Partial output of the help methods *)

Lemma match_nonempty {A B} (l : list A) (a b : B) :
  l <> [] -> match l with [] => a | _ :: _ => b end = b.
Proof. now destruct l. Qed.

Lemma fails_first (m1 m2 : M unit) s l e :
  fails m1 s l e -> fails (m1 ;; m2) s l e.
Proof. unfold fails, bind. now intros ->. Qed.

Lemma fails_after (m1 m2 : M unit) s l1 l2 e :
  emits m1 s l1 ->
  fails m2 (with_stdout (stdout s ++ l1) s) l2 e ->
  fails (m1 ;; m2) s (l1 ++ l2) e.
Proof.
  unfold emits, fails, bind. intros -> ->. f_equal.
  destruct s. cbn. now rewrite app_assoc.
Qed.

Lemma fails_get (k : State -> M unit) s l e :
  fails (k s) s l e -> fails (s' <- get ;; k s') s l e.
Proof. intros H. exact H. Qed.

Lemma for_each_fails {A} (pre post : list A) (x : A) (body : A -> M unit)
    (lines : A -> list string) e :
  Forall (fun y => forall s, emits (body y) s (lines y)) pre ->
  (forall s, fails (body x) s [] e) ->
  forall s, fails (for_each (pre ++ x :: post) body) s (flat_map lines pre) e.
Proof.
  intros Hpre Hx. induction Hpre as [| y pre Hy _ IH]; intros s; cbn [app for_each flat_map].
  - apply fails_first, Hx.
  - apply fails_after; [apply Hy | apply IH].
Qed.

(** X6: [print_alias_help] stops at the first alias it cannot resolve.  It
    has then printed the header and the lines of the aliases before that
    one, and the exception is the one that alias gives: a ValueError from
    the unpacking of line 148 when the target has no dot, a KeyError
    otherwise.  The closing blank line is not printed and nothing but
    standard output has changed. *)
Theorem alias_help_first_failure (indent : string -> string) (s : State)
    (pre post : list (string * string)) (entry : string * string) (e : exn) :
  aliases s = pre ++ entry :: post ->
  Forall (fun kv => alias_ok (classes s) kv = true) pre ->
  resolve_alias (classes s) entry.2 = inl e ->
  fails (print_alias_help indent) s
    (alias_header s ++ flat_map (alias_entry_lines indent (classes s)) pre) e /\
  (split_first_dot entry.2 = None -> e = ValueError) /\
  (is_Some (split_first_dot entry.2) -> exists k, e = KeyError k).
Proof.
  intros Hal Hpre He. split; [| split].
  - unfold print_alias_help. apply fails_get. rewrite Hal.
    rewrite match_nonempty by now destruct pre.
    change (alias_header s) with (["Aliases"] ++ ["-------"] ++ [alias_description s] ++ [""]).
    rewrite <- !app_assoc.
    do 4 (apply fails_after; [apply emits_print |]).
    apply fails_first. apply for_each_fails.
    + eapply Forall_impl; [exact Hpre |]. intros kv Hkv s'. now apply print_alias_emits.
    + intros s'. unfold fails. rewrite print_alias_run, He.
      now rewrite app_nil_r, with_stdout_same.
  - intros Hnone. unfold resolve_alias, split_dotted in He. rewrite Hnone in He.
    now injection He as <-.
  - intros Hdot. now apply (dotted_key_error (classes s) entry.2).
Qed.

Lemma classdict_last_wins_witness :
  classdict [Sample.Application; Sample.shadow] !! "Application" = Some Sample.shadow.
Proof.
  destruct (classdict_last_wins [Sample.Application; Sample.shadow] "Application")
    as [Hlast _].
  apply (Hlast [Sample.Application] Sample.shadow []); try reflexivity.
  intros c Hc. now apply not_elem_of_nil in Hc.
Defined.

Lemma alias_help_first_failure_witness :
  fails (print_alias_help Sample.indent) Sample.sub_app
    (alias_header Sample.sub_app) (KeyError (PyStr "Application")).
Proof.
  destruct (alias_help_first_failure Sample.indent Sample.sub_app []
              [] ("log_level", "Application.log_level") (KeyError (PyStr "Application")))
    as [Hfails _].
  - reflexivity.
  - constructor.
  - reflexivity.
  - unfold fails in *. rewrite Hfails. reflexivity.
Defined.

(** ** [print_help] (lines 173-185) *)

Lemma init_classes s : classes (__init__ s).2 = self_class s :: classes s.
Proof.
  rewrite init_unfold.
  rewrite (preserves_bind classes _ _ (validation_frame classes (flags s))).
  - reflexivity.
  - intros _. now apply init_logging_frame.
Qed.

(** X7: with well-formed tables [print_help] returns after printing, in
    this order, the flag section, the alias section and the class section:
    the "Class parameters" header with the key-value description when the
    registry is not empty, then for every registered class, in registry
    order, the help of that class and a blank line.  On a constructed
    instance the registry is not empty and the class section begins with
    the header and the help of the instance's own class. *)
Theorem print_help_output (indent : string -> string)
    (class_print_help : PyClass -> list string) (s : State) :
  tables_ok s ->
  emits (print_help indent class_print_help) s
    (flag_help_output indent s ++ alias_help_output indent s ++
     class_help_output class_print_help s) /\
  (forall s0, s = (__init__ s0).2 ->
     class_help_output class_print_help s =
       ["Class parameters"; "----------------"; keyvalue_description s; ""] ++
       (class_print_help (self_class s0) ++ [""]) ++
       flat_map (fun cls => class_print_help cls ++ [""]) (classes s0)).
Proof.
  intros Hok. split.
  - now apply print_help_emits.
  - intros s0 ->. unfold class_help_output. now rewrite init_classes.
Qed.

Lemma print_help_output_witness :
  emits (print_help Sample.indent Sample.class_print_help) Sample.app
    (["Flags"; "-----"; flag_description Sample.app; "";
      "--debug"; "    enable debug"; ""] ++
     ["Aliases"; "-------"; alias_description Sample.app; "";
      "log_level (Application.log_level) : Enum";
      "    Set the log level (0,10,20,30,40,50)."; ""] ++
     ["Class parameters"; "----------------"; keyvalue_description Sample.app; "";
      "Application options"; ""]).
Proof.
  destruct (print_help_output Sample.indent Sample.class_print_help Sample.app)
    as [Hrun _].
  - split; repeat constructor.
  - exact Hrun.
Defined.

(** ** The help methods and the state *)

Lemma appends_bind {A B} (m : M A) (k : A -> M B) :
  appends m -> (forall a, appends (k a)) -> appends (bind m k).
Proof.
  intros Hm Hk s. unfold bind. destruct (Hm s) as [l1 H1].
  destruct (m s) as [[a | e | n] s1]; cbn [snd] in *; try (now exists l1).
  destruct (Hk a s1) as [l2 H2]. exists (l1 ++ l2). now rewrite H2, H1, app_assoc.
Qed.

Lemma appends_same {A} (m : M A) : (forall s, (m s).2 = s) -> appends m.
Proof. intros H s. exists []. now rewrite H, app_nil_r. Qed.

Lemma appends_lift {A} (r : exn + A) : appends (lift r).
Proof. apply appends_same. now destruct r. Qed.

Lemma appends_print items : appends (print items).
Proof. intros s. now exists [String.concat " " items]. Qed.

Lemma appends_for_each {A} (xs : list A) (body : A -> M unit) :
  (forall x, appends (body x)) -> appends (for_each xs body).
Proof.
  intros Hb. induction xs as [| x xs IH]; cbn [for_each].
  - now apply appends_same.
  - apply appends_bind; [apply Hb | intros _; apply IH].
Qed.

(** Every leaf of the help methods is a print, a pure lookup, [get],
    [ret] or [raise]. *)
Ltac grows :=
  repeat first
    [ apply appends_for_each; intros ?
    | apply appends_print
    | apply appends_lift
    | apply appends_same; intros ?; reflexivity
    | apply appends_bind; [| intros ? ]
    | match goal with
      | |- appends (match ?x with _ => _ end) => destruct x
      end ].

Lemma print_help_appends indent class_print_help :
  appends (print_help indent class_print_help).
Proof.
  unfold print_help, print_flag_help, print_alias_help, print_flag, print_alias.
  grows.
Qed.

(** X8: [print_help] only writes: however it ends, the lines that were on
    standard output are still there, followed by what it printed, and no
    attribute of the instance, no Config object and no logger has
    changed. *)
Theorem print_help_only_prints (indent : string -> string)
    (class_print_help : PyClass -> list string) (s : State) :
  let r := print_help indent class_print_help s in
  (exists lines, stdout r.2 = stdout s ++ lines) /\
  with_stdout (stdout s) r.2 = s.
Proof.
  cbv zeta. split.
  - apply print_help_appends.
  - rewrite (with_stdout_reset (stdout s) s _ (print_help_frame indent class_print_help s)).
    apply with_stdout_same.
Qed.

(** ** [update_config] and the loaders (lines 196-229) *)

Section Loading.

Variable indent : string -> string.
Variable class_print_help : PyClass -> list string.
Variable sys_argv : list string.
Variable kv_load_config :
  list string -> list (string * string) -> list (string * pyval) -> exn + Config.
Variable pyfile_load_config : string -> option (list string) -> exn + Config.
Variable config_log_level : PyClass -> Config -> option pyval.

Lemma update_config_keeps {B} (f : State -> B) s cfg :
  (forall v t, f (with_heap v t) = f t) ->
  (forall v t, f (with_config v t) = f t) ->
  (forall v t, f (with_loggers v t) = f t) ->
  (forall v t, f (with_log_level v t) = f t) ->
  f (update_config config_log_level cfg s).2 = f s.
Proof.
  intros Hheap Hconfig Hloggers Hlevel.
  pose proof (update_config_unfold config_log_level s cfg) as Hrun. cbv zeta in Hrun.
  rewrite Hrun, (config_changed_frame config_log_level f) by assumption.
  now rewrite Hconfig, !Hheap.
Qed.

Lemma update_config_heap s cfg :
  config (update_config config_log_level cfg s).2 = cfg /\
  exists merged,
    heap (update_config config_log_level cfg s).2 =
      <[fresh (dom (heap s)) := merged]> (heap s).
Proof.
  pose proof (update_config_unfold config_log_level s cfg) as Hrun. cbv zeta in Hrun.
  rewrite Hrun. split.
  - now rewrite (config_changed_frame config_log_level config).
  - rewrite (config_changed_frame config_log_level heap) by reflexivity.
    cbn [heap with_config with_heap]. eexists. apply insert_insert_eq.
Qed.

Lemma fresh_not_allocated (h : gmap loc Config) l :
  is_Some (h !! l) -> fresh (dom h) <> l.
Proof.
  intros [c Hc] Heq. pose proof (is_fresh (dom h)) as Hf.
  apply not_elem_of_dom in Hf. rewrite Heq in Hf. congruence.
Qed.

Lemma update_config_old_objects s cfg l :
  is_Some (heap s !! l) ->
  heap (update_config config_log_level cfg s).2 !! l = heap s !! l.
Proof.
  intros Hl. destruct (update_config_heap s cfg) as [_ [merged ->]].
  apply lookup_insert_ne. now apply fresh_not_allocated.
Qed.

(** X9: every call of [update_config] leaves exactly one more Config
    object behind, the merged copy, and modifies no Config object that
    existed before: the previous config is protected by the deep copy and
    the incoming one is only read.  The call prints nothing and leaves the
    class registry and the tables alone. *)
Theorem update_config_allocates_one (s : State) (cfg : loc) :
  let s' := (update_config config_log_level cfg s).2 in
  (exists merged, heap s' = <[fresh (dom (heap s)) := merged]> (heap s)) /\
  heap s !! fresh (dom (heap s)) = None /\
  (forall l, is_Some (heap s !! l) -> heap s' !! l = heap s !! l) /\
  stdout s' = stdout s /\
  classes s' = classes s /\ aliases s' = aliases s /\ flags s' = flags s.
Proof.
  cbv zeta. split; [apply update_config_heap |].
  split; [apply not_elem_of_dom, is_fresh |].
  split; [intros l; apply update_config_old_objects |].
  repeat split; now apply update_config_keeps.
Qed.

(** X10: updates do not accumulate.  After [update_config(c1)] followed by
    [update_config(c2)] the config of the instance is the object [c2] with
    the items it had before either call; nothing of [c1] or of the
    original config is in it. *)
Theorem update_config_last_wins (s : State) (c1 c2 : loc) :
  is_Some (heap s !! c2) ->
  let s1 := (update_config config_log_level c1 s).2 in
  let s2 := (update_config config_log_level c2 s1).2 in
  config s2 = c2 /\ deref s2 (config s2) = deref s c2.
Proof.
  intros Hc2 s1 s2.
  assert (H1 : heap s1 !! c2 = heap s !! c2) by now apply update_config_old_objects.
  assert (H2 : heap s2 !! c2 = heap s1 !! c2).
  { apply update_config_old_objects. now rewrite H1. }
  destruct (update_config_heap s1 c2) as [Hconfig _]. fold s2 in Hconfig.
  split; [exact Hconfig |].
  unfold deref. now rewrite Hconfig, H2, H1.
Qed.

(** What both loaders do with the Config they obtained: a new object is
    allocated for it and handed to [update_config]. *)
Lemma store_loaded s c :
  let l := fresh (dom (heap s)) in
  let s' := ((cfg <- alloc c ;; update_config config_log_level cfg) s).2 in
  config s' = l /\
  heap s !! l = None /\
  heap s' !! l = Some c /\
  (forall l', is_Some (heap s !! l') -> heap s' !! l' = heap s !! l') /\
  stdout s' = stdout s.
Proof.
  cbv zeta.
  change ((cfg <- alloc c ;; update_config config_log_level cfg) s)
    with (update_config config_log_level (fresh (dom (heap s)))
            (with_heap (<[fresh (dom (heap s)) := c]> (heap s)) s)).
  set (l := fresh (dom (heap s))). set (s0 := with_heap (<[l := c]> (heap s)) s).
  assert (Hfresh : heap s !! l = None) by apply not_elem_of_dom, is_fresh.
  assert (Hl : heap s0 !! l = Some c) by apply lookup_insert_eq.
  split; [apply update_config_heap |].
  split; [exact Hfresh |].
  split; [| split].
  - rewrite update_config_old_objects; [exact Hl | now rewrite Hl].
  - intros l' Hl'.
    assert (Hne : l <> l') by now apply fresh_not_allocated.
    rewrite update_config_old_objects.
    + apply lookup_insert_ne, Hne.
    + unfold s0. cbn [heap with_heap]. now rewrite lookup_insert_ne.
  - now rewrite (update_config_keeps stdout).
Qed.

Local Abbreviation parse :=
  (parse_command_line indent class_print_help sys_argv kv_load_config config_log_level).

(** X11: on a command line without [-h], [--help] and [--version],
    [parse_command_line] hands the arguments, the alias table and the flags
    table to the key-value loader.  An exception of the loader propagates
    and leaves the state exactly as it was.  Otherwise the config of the
    instance becomes a new object holding what the loader returned, the
    Config objects that existed are unchanged and nothing is printed. *)
Theorem parse_load_path (s : State) (argv : list string) :
  ~ wants_help argv -> "--version" ∉ argv ->
  match kv_load_config argv (aliases s) (flags s) with
  | inl e => parse (Some argv) s = (Raise e, s)
  | inr c =>
      let s' := (parse (Some argv) s).2 in
      heap s !! config s' = None /\
      heap s' !! config s' = Some c /\
      (forall l, is_Some (heap s !! l) -> heap s' !! l = heap s !! l) /\
      stdout s' = stdout s
  end.
Proof.
  intros Hh Hv.
  assert (Hb : bool_decide ("-h" ∈ argv) || bool_decide ("--help" ∈ argv) = false).
  { apply orb_false_iff. split; apply bool_decide_eq_false_2; intros H; apply Hh;
      [now left | now right]. }
  assert (Hrun : parse (Some argv) s =
                 (loaded <- lift (kv_load_config argv (aliases s) (flags s)) ;;
                  cfg <- alloc loaded ;;
                  update_config config_log_level cfg) s).
  { unfold parse_command_line. rewrite Hb, (bool_decide_eq_false_2 _ Hv). reflexivity. }
  rewrite Hrun. destruct (kv_load_config argv (aliases s) (flags s)) as [e | c].
  - reflexivity.
  - cbv zeta.
    change ((loaded <- lift (inr c) ;; cfg <- alloc loaded ;;
             update_config config_log_level cfg) s)
      with ((cfg <- alloc c ;; update_config config_log_level cfg) s).
    destruct (store_loaded s c) as (Hconfig & Hnew & Hitems & Hold & Hout).
    rewrite Hconfig. repeat split; assumption.
Qed.

(** X12: [load_config_file] lets the exception of the file loader through
    (the IOError for a file that does not exist) and leaves the state
    exactly as it was; when the loader returns, the config of the instance
    becomes a new object holding the loaded Config, the Config objects
    that existed are unchanged and nothing is printed. *)
Theorem load_config_file_effect (s : State) (filename : string)
    (path : option (list string)) :
  match pyfile_load_config filename path with
  | inl e => load_config_file pyfile_load_config config_log_level filename path s = (Raise e, s)
  | inr c =>
      let s' := (load_config_file pyfile_load_config config_log_level filename path s).2 in
      heap s !! config s' = None /\
      heap s' !! config s' = Some c /\
      (forall l, is_Some (heap s !! l) -> heap s' !! l = heap s !! l) /\
      stdout s' = stdout s
  end.
Proof.
  unfold load_config_file. destruct (pyfile_load_config filename path) as [e | c].
  - reflexivity.
  - cbv zeta.
    change ((loaded <- lift (inr c) ;; cfg <- alloc loaded ;;
             update_config config_log_level cfg) s)
      with ((cfg <- alloc c ;; update_config config_log_level cfg) s).
    destruct (store_loaded s c) as (Hconfig & Hnew & Hitems & Hold & Hout).
    rewrite Hconfig. repeat split; assumption.
Qed.

End Loading.

Lemma update_config_last_wins_witness :
  let s1 := (update_config Sample.config_log_level 2 Sample.two_configs).2 in
  let s2 := (update_config Sample.config_log_level 1 s1).2 in
  config s2 = 1%positive /\ deref s2 (config s2) = [("a", PyInt 1)].
Proof.
  apply (update_config_last_wins Sample.config_log_level Sample.two_configs 2 1).
  exists [("a", PyInt 1)]. reflexivity.
Defined.

Lemma parse_load_path_witness :
  parse_command_line Sample.indent Sample.class_print_help ["ipython"]
    Sample.kv_load_config Sample.config_log_level (Some ["--debug"]) Sample.app =
  (Raise (OtherError "ArgumentError"), Sample.app) /\
  (let s' := (parse_command_line Sample.indent Sample.class_print_help ["ipython"]
                Sample.kv_load_config Sample.config_log_level (Some []) Sample.app).2 in
   heap Sample.app !! config s' = None /\
   heap s' !! config s' = Some [] /\
   (forall l, is_Some (heap Sample.app !! l) -> heap s' !! l = heap Sample.app !! l) /\
   stdout s' = stdout Sample.app).
Proof.
  split.
  - apply (parse_load_path Sample.indent Sample.class_print_help ["ipython"]
             Sample.kv_load_config Sample.config_log_level Sample.app ["--debug"]).
    + intros [H | H]; apply elem_of_cons in H as [H | H]; try discriminate H;
        now apply not_elem_of_nil in H.
    + intros H. apply elem_of_cons in H as [H | H]; [discriminate H |].
      now apply not_elem_of_nil in H.
  - apply (parse_load_path Sample.indent Sample.class_print_help ["ipython"]
             Sample.kv_load_config Sample.config_log_level Sample.app []).
    + intros [H | H]; now apply not_elem_of_nil in H.
    + apply not_elem_of_nil.
Defined.

(** C7 as stated fails: with the alias table [x -> nodot], [y -> Nope.z]
    the second entry has a dotted target that names a class which is not
    registered, and [print_alias_help] raises the ValueError of the
    unpacking of line 148 at the first entry, not a lookup error. *)
Lemma alias_value_error :
  let r := print_alias_help Sample.indent Sample.mixed_aliases in
  ("y", "Nope.z") ∈ aliases Sample.mixed_aliases /\
  unresolved (classes Sample.mixed_aliases) "Nope.z" /\
  r.1 = Raise ValueError /\
  ~ (exists k, r.1 = Raise (KeyError k)).
Proof.
  cbv zeta. split; [| split; [| split]].
  - apply elem_of_cons. right. apply elem_of_cons. now left.
  - exists "Nope", "z". split; [reflexivity |].
    left. intros c Hc. apply elem_of_cons in Hc as [-> | Hc]; [discriminate |].
    now apply not_elem_of_nil in Hc.
  - reflexivity.
  - intros [k Hk]. vm_compute in Hk. discriminate Hk.
Qed.

(** C9 as stated fails: for a [MyApp] constructed with the class defaults
    the command line [-h --version] ends in the KeyError of line 149 after
    the description and the alias header; the full help is not printed and
    there is no exit status. *)
Lemma help_before_version_key_error :
  let r := parse_command_line Sample.indent Sample.class_print_help ["ipython"]
             Sample.kv_load_config Sample.config_log_level (Some ["-h"; "--version"])
             Sample.sub_app in
  wants_help ["-h"; "--version"] /\
  "--version" ∈ ["-h"; "--version"] /\
  r.1 = Raise (KeyError (PyStr "Application")) /\
  r.1 <> Exit 1 /\
  stdout r.2 = [description Sample.sub_app; ""] ++ alias_header Sample.sub_app.
Proof.
  cbv zeta. split; [| split; [| split; [| split]]].
  - left. apply elem_of_cons. now left.
  - apply elem_of_cons. right. apply elem_of_cons. now left.
  - reflexivity.
  - vm_compute. discriminate.
  - reflexivity.
Qed.

(** C10 as stated fails: for a [MyApp] constructed with the class defaults
    the command line [--help] does not terminate the process: the call
    ends in the KeyError of line 149, which goes to the caller, and in no
    exit. *)
Lemma special_tokens_key_error :
  let r := parse_command_line Sample.indent Sample.class_print_help ["ipython"]
             Sample.kv_load_config Sample.config_log_level (Some ["--help"])
             Sample.sub_app in
  wants_help ["--help"] /\
  r.1 = Raise (KeyError (PyStr "Application")) /\
  forall n, r.1 <> Exit n.
Proof.
  cbv zeta. split; [| split].
  - right. apply elem_of_cons. now left.
  - reflexivity.
  - intros n. vm_compute. discriminate.
Qed.
